(** * Local storage of activity dumps: retention index, eviction, reconciliation

    Shallow embedding of [pkg/security/security_profile/dump/local_storage.go].

    The store keeps a bounded LRU index ([simplelru.LRU[string, *[]string]])
    from dump names to pointers to their file lists, a 64-bit counter of
    evictions, and talks to the file system ([os.Create], [os.Rename],
    [os.Remove], ...), to the security profile manager and to a statsd client.
    All of these are threaded explicitly through a [World] record; every
    effectful call that the claims speak about is appended to a trace, in
    program order. *)

From Stdlib Require Import ZArith Ascii String List Sorted Lia.
From stdpp Require Import base tactics option list gmap strings fin_maps.

Local Open Scope string_scope.
Local Open Scope Z_scope.

(** ** Machine integers *)

Module Uint64.
Definition modulus : Z := 2 ^ 64.
Definition wrap (x : Z) : Z := x mod modulus.
(** [atomic.Uint64.Add] *)
Definition add (x y : Z) : Z := wrap (x + y).
(** the conversion [int64(x)] of a [uint64] *)
Definition to_int64 (x : Z) : Z :=
  if x <? 2 ^ 63 then x else x - modulus.
End Uint64.

(** ** [time.Time]

    A time is the number of nanoseconds since the zero time; the zero value
    [time.Time{}] is [0]. *)

Module Time.
Definition t := Z.
Definition zero : t := 0.
Definition IsZero (a : t) : bool := a =? 0.
Definition Before (a b : t) : bool := a <? b.
End Time.

(** ** Strings and paths ([strings], [path/filepath]) *)

Definition is_sep (c : ascii) : bool := Ascii.eqb c "/"%char.
Definition is_dot (c : ascii) : bool := Ascii.eqb c "."%char.

(** [ext_rev] walks the name from its last byte, as the loop of
    [filepath.Ext] does; [acc] holds the bytes already passed. *)
Fixpoint ext_rev (r : list ascii) (acc : list ascii) : list ascii :=
  match r with
  | [] => []
  | c :: r' =>
      if is_sep c then []
      else if is_dot c then c :: acc
      else ext_rev r' (c :: acc)
  end.

Definition filepath_Ext (p : string) : string :=
  string_of_list_ascii (ext_rev (rev (list_ascii_of_string p)) []).

Fixpoint drop_seps (r : list ascii) : list ascii :=
  match r with
  | c :: r' => if is_sep c then drop_seps r' else r
  | [] => []
  end.

Fixpoint last_elem_rev (r : list ascii) (acc : list ascii) : list ascii :=
  match r with
  | [] => acc
  | c :: r' => if is_sep c then acc else last_elem_rev r' (c :: acc)
  end.

Definition filepath_Base (p : string) : string :=
  match p with
  | EmptyString => "."
  | _ =>
      match last_elem_rev (drop_seps (rev (list_ascii_of_string p))) [] with
      | [] => "/"
      | l => string_of_list_ascii l
      end
  end.

Fixpoint has_prefix (p s : list ascii) : option (list ascii) :=
  match p, s with
  | [], _ => Some s
  | a :: p', b :: s' => if Ascii.eqb a b then has_prefix p' s' else None
  | _ :: _, [] => None
  end.

Definition strings_TrimSuffix (s suffix : string) : string :=
  match has_prefix (rev (list_ascii_of_string suffix))
                   (rev (list_ascii_of_string s)) with
  | Some r => string_of_list_ascii (rev r)
  | None => s
  end.

(** ** Effects *)

(** Pointers to file lists ([*[]string]) are indices into a heap of slices. *)
Definition loc := nat.

Inductive event :=
| EvCleanup (paths : list string)      (* securityProfileManager.OnLocalStorageCleanup *)
| EvRemove (path : string) (ok : bool) (* os.Remove, with its outcome *)
| EvWarn (path : string)               (* seclog.Warnf *)
| EvDeletedAdd                         (* deletedCount.Add(1) *)
| EvGauge (n : Z)                      (* sender.Gauge(..LocalStorageCount, float64(n)) *)
| EvCount (n : Z).                     (* sender.Count(..LocalStorageDeleted, n) *)

(** The world outside the index.  [disk] maps each existing file to its
    content; directories are not part of the model.  [pinned] are the paths
    whose removal the file system refuses (permissions, busy, immutable), and
    removing a path that does not exist fails as well. *)
Record World := mkWorld {
  heap : list (list string);
  disk : gmap string (list ascii);
  pinned : gset string;
  deletedCount : Z;
  trace : list event
}.

Definition emit (e : event) (w : World) : World :=
  mkWorld (heap w) (disk w) (pinned w) (deletedCount w) (trace w ++ [e]).

Definition set_disk (d : gmap string (list ascii)) (w : World) : World :=
  mkWorld (heap w) d (pinned w) (deletedCount w) (trace w).

Definition set_deleted (n : Z) (w : World) : World :=
  mkWorld (heap w) (disk w) (pinned w) n (trace w).

Definition set_heap (h : list (list string)) (w : World) : World :=
  mkWorld h (disk w) (pinned w) (deletedCount w) (trace w).

(** [*p] *)
Definition deref (w : World) (p : loc) : list string :=
  default [] (heap w !! p).

(** [&[]string{...}]: a fresh slice *)
Definition alloc (v : list string) (w : World) : loc * World :=
  (length (heap w), set_heap (heap w ++ [v]) w).

(** [*p = v] *)
Definition store (p : loc) (v : list string) (w : World) : World :=
  set_heap (<[p := v]> (heap w)) w.

(** [os.Remove]: [true] when the file was removed *)
Definition can_remove (w : World) (p : string) : bool :=
  bool_decide (is_Some (disk w !! p)) && negb (bool_decide (p ∈ pinned w)).

Definition os_Remove (p : string) (w : World) : bool * World :=
  if can_remove w p
  then (true, emit (EvRemove p true) (set_disk (delete p (disk w)) w))
  else (false, emit (EvRemove p false) w).

(** ** [simplelru.LRU]

    The LRU of the library [github.com/hashicorp/golang-lru/v2/simplelru],
    which the storage imports.  [evictList] is its eviction list, most
    recently used entry first; the library's [items] map is the lookup by key
    in that list.  [NewLRU] fails on a size that is not positive. *)

Module simplelru.
Record LRU := mkLRU {
  size : Z;
  evictList : list (string * loc)
}.

Definition NewLRU (sz : Z) : option LRU :=
  if sz <=? 0 then None else Some (mkLRU sz []).

Definition Len (c : LRU) : Z := Z.of_nat (length (evictList c)).

Fixpoint lookup_key (k : string) (l : list (string * loc)) : option loc :=
  match l with
  | [] => None
  | (k', v) :: l' => if String.eqb k k' then Some v else lookup_key k l'
  end.

Fixpoint remove_key (k : string) (l : list (string * loc)) : list (string * loc) :=
  match l with
  | [] => []
  | (k', v) :: l' => if String.eqb k k' then l' else (k', v) :: remove_key k l'
  end.

(** [Get]: a hit moves the entry to the front *)
Definition Get (c : LRU) (k : string) : LRU * option loc :=
  match lookup_key k (evictList c) with
  | Some v => (mkLRU (size c) ((k, v) :: remove_key k (evictList c)), Some v)
  | None => (c, None)
  end.

(** [removeOldest]: unlink the back entry, then run the callback on it *)
Definition removeOldest {S : Type} (onEvict : string -> loc -> S -> S)
    (c : LRU) (s : S) : LRU * S :=
  match rev (evictList c) with
  | [] => (c, s)
  | (k, v) :: r => (mkLRU (size c) (rev r), onEvict k v s)
  end.

(** [Add]: returns whether an entry was evicted *)
Definition Add {S : Type} (onEvict : string -> loc -> S -> S)
    (c : LRU) (k : string) (v : loc) (s : S) : LRU * S * bool :=
  match lookup_key k (evictList c) with
  | Some _ =>
      (mkLRU (size c) ((k, v) :: remove_key k (evictList c)), s, false)
  | None =>
      let c1 := mkLRU (size c) ((k, v) :: evictList c) in
      if size c <? Len c1
      then let '(c2, s2) := removeOldest onEvict c1 s in (c2, s2, true)
      else (c1, s, false)
  end.
End simplelru.

(** ** Configuration, requests and collaborators *)

Record Config := mkConfig {
  ActivityDumpLocalStorageMaxDumpsCount : Z;
  ActivityDumpLocalStorageDirectory : string
}.

Inductive SecurityProfileManager := TheSecurityProfileManager.

(** [securityProfileManager] is a pointer: [None] is [nil]. *)
Record ActivityDumpManager := mkManager {
  securityProfileManager : option SecurityProfileManager
}.

Record StorageRequest := mkRequest {
  OutputDirectory : string;
  Compression : bool;
  Format : Z
}.

(** The part of [ActivityDump.Metadata] that [Persist] touches. *)
Record ActivityDump := mkDump {
  MetadataName : string;
  MetadataSize : Z
}.

(** Functions of other packages that the storage calls:
    [config.StorageRequest.GetOutputPath], [compressWithGZip] ([None] is an
    error), [config.ParseStorageFormat] ([None] is an error) and
    [filepath.Join]. *)
Record Externals := mkExternals {
  GetOutputPath : StorageRequest -> string -> string;
  compressWithGZip : string -> list ascii -> option (list ascii);
  ParseStorageFormat : string -> option Z;
  filepath_Join : string -> string -> string
}.

(** What the file system answers during construction: the listing of the
    output directory, with for each entry the outcome of [Info()] (its
    modification time, or [None] for an error), the outcome of [os.MkdirAll],
    and the order in which [range] walks a map, which Go leaves open. *)
Record DirEntry := mkDirEntry {
  entryName : string;
  entryInfo : option Time.t
}.

Inductive ReadDirResult :=
| ReadDirOk (files : list DirEntry)
| ReadDirNotExist
| ReadDirError.

(** The file operation of [Persist] that fails, if any. *)
Inductive fault :=
| FaultCreate | FaultChmod | FaultWrite | FaultClose | FaultRename.

Inductive error :=
| ErrNewLRU | ErrMkdirAll | ErrReadDir
| ErrCompress | ErrCreate | ErrChmod | ErrWrite | ErrClose | ErrRename.

(** ** [dumpFiles] and its sort *)

Record dumpFiles := mkDumpFiles {
  Name : string;
  Files : list string;
  MTime : Time.t
}.

Definition Less (a b : dumpFiles) : bool := Time.Before (MTime a) (MTime b).

(** [sort.Sort] on at most 12 elements is an insertion sort: element [i]
    is swapped towards the front while it is [Less] than its predecessor.
    [bubble x r] does that for [x], [r] being the sorted prefix, last element
    first.  On longer slices [sort.Sort] is not stable, and returns some
    sorted permutation; elements that compare equal may then come out in
    another order than the one of this insertion sort. *)
Fixpoint bubble (x : dumpFiles) (r : list dumpFiles) : list dumpFiles :=
  match r with
  | [] => [x]
  | y :: r' => if Less x y then y :: bubble x r' else x :: r
  end.

Definition sort_Sort (s : list dumpFiles) : list dumpFiles :=
  rev (fold_left (fun r x => bubble x r) s []).

(** [newDumpFilesSlice]: the values of the map, in the order [range] yields
    them. *)
Definition newDumpFilesSlice (rangeOrder : list dumpFiles -> list dumpFiles)
    (dumps : gmap string dumpFiles) : list dumpFiles :=
  rangeOrder (snd <$> map_to_list dumps).

(** ** The storage *)

(** [deletedCount] is the atomic cell [deletedCount] of the [World], which the
    eviction callback shares with the storage.  [localDumps] is never [nil]
    in a storage built by [NewActivityDumpLocalStorage]. *)
Record ActivityDumpLocalStorage := mkStorage {
  localDumps : simplelru.LRU
}.

Fixpoint remove_all (files : list string) (w : World) : World :=
  match files with
  | [] => w
  | filePath :: rest =>
      let '(ok, w1) := os_Remove filePath w in
      remove_all rest (if ok then w1 else emit (EvWarn filePath) w1)
  end.

(** The callback given to [simplelru.NewLRU]. *)
Definition onEvict (m : ActivityDumpManager) (_ : string) (filePaths : loc)
    (w : World) : World :=
  let files := deref w filePaths in
  if (length files =? 0)%nat then w
  else
    let w1 := match securityProfileManager m with
              | Some _ => emit (EvCleanup files) w
              | None => w
              end in
    let w2 := remove_all files w1 in
    emit EvDeletedAdd (set_deleted (Uint64.add (deletedCount w2) 1) w2).

Section Storage.
Variable X : Externals.
Variable cfg : Config.
Variable m : ActivityDumpManager.

(** One round of the loop that merges the listed files into dumps. *)
Definition merge_file (acc : gmap string dumpFiles * World) (f : DirEntry)
    : gmap string dumpFiles * World :=
  let '(dumps, w) := acc in
  let ext := filepath_Ext (entryName f) in
  if bool_decide (ParseStorageFormat X ext = None) && negb (String.eqb ext ".gz")
  then (dumps, w)
  else
    match entryInfo f with
    | None => (dumps, emit (EvWarn (entryName f)) w)
    | Some modTime =>
        let dumpName := strings_TrimSuffix (filepath_Base (entryName f)) ext in
        let dumpName :=
          if String.eqb ext ".gz"
          then strings_TrimSuffix dumpName (filepath_Ext dumpName)
          else dumpName in
        let ad := match dumps !! dumpName with
                  | Some ad => ad
                  | None => mkDumpFiles dumpName [] Time.zero
                  end in
        let files :=
          (Files ad ++ [filepath_Join X (ActivityDumpLocalStorageDirectory cfg)
                                      (entryName f)])%list in
        let mtime :=
          if negb (Time.IsZero (MTime ad)) && Time.Before (MTime ad) modTime
          then modTime else MTime ad in
        (<[dumpName := mkDumpFiles (Name ad) files mtime]> dumps, w)
    end.

(** The loop that inserts the sorted dumps; [&ad.Files] is a cell of its
    own holding the file list. *)
Definition seed (acc : simplelru.LRU * World) (ad : dumpFiles)
    : simplelru.LRU * World :=
  let '(c, w) := acc in
  let '(p, w1) := alloc (Files ad) w in
  let '(c', w2, _) := simplelru.Add (onEvict m) c (Name ad) p w1 in
  (c', w2).

(** Directories are not modelled: of the [os.MkdirAll] that runs when the
    listing reports a missing directory, only the outcome is an input; the
    directory that it creates is not recorded in the [World]. *)
Definition NewActivityDumpLocalStorage
    (readDir : ReadDirResult) (mkdirAll : bool)
    (rangeOrder : list dumpFiles -> list dumpFiles) (w : World)
    : error + (ActivityDumpLocalStorage * World) :=
  match simplelru.NewLRU (ActivityDumpLocalStorageMaxDumpsCount cfg) with
  | None => inl ErrNewLRU
  | Some lru =>
      let w := set_deleted 0 w in
      if (0 <? String.length (ActivityDumpLocalStorageDirectory cfg))%nat
      then
        let listing :=
          match readDir with
          | ReadDirOk files => inr files
          | ReadDirNotExist => if mkdirAll then inr [] else inl ErrMkdirAll
          | ReadDirError => inl ErrReadDir
          end in
        match listing with
        | inl e => inl e
        | inr files =>
            let '(dumps0, w1) := fold_left merge_file files (∅, w) in
            let dumps := sort_Sort (newDumpFilesSlice rangeOrder dumps0) in
            let '(c, w2) := fold_left seed dumps (lru, w1) in
            inr (mkStorage c, w2)
        end
      else inr (mkStorage lru, w)
  end.

(** The file operations of [Persist] after compression: create the
    temporary file, chmod, write, close, rename; [io] is the one that fails,
    if any.  A failure after the creation leaves the temporary file behind;
    a failing write is taken to have written nothing, where the code may
    leave a prefix of the bytes.  Directories are not modelled, so
    [os.MkdirAll], whose result [Persist] drops, does nothing here. *)
Definition write_file (io : option fault) (outputPath : string)
    (raw : list ascii) (w : World) : option error * World :=
  let tmpOutputPath := outputPath ++ ".tmp" in
  match io with
  | Some FaultCreate => (Some ErrCreate, w)
  | _ =>
      let w1 := set_disk (<[tmpOutputPath := []]> (disk w)) w in
      match io with
      | Some FaultChmod => (Some ErrChmod, w1)
      | Some FaultWrite => (Some ErrWrite, w1)
      | _ =>
          let w2 := set_disk (<[tmpOutputPath := raw]> (disk w1)) w1 in
          match io with
          | Some FaultClose => (Some ErrClose, w2)
          | Some FaultRename => (Some ErrRename, w2)
          | _ =>
              (None,
               set_disk (<[outputPath := raw]> (delete tmpOutputPath (disk w2))) w2)
          end
      end
  end.

Definition Persist (storage : ActivityDumpLocalStorage)
    (request : StorageRequest) (ad : ActivityDump) (raw : list ascii)
    (io : option fault) (w : World)
    : option error * ActivityDump * ActivityDumpLocalStorage * World :=
  let outputPath := GetOutputPath X request (MetadataName ad) in
  let compressed :=
    if Compression request
    then compressWithGZip X (filepath_Base outputPath) raw
    else Some raw in
  match compressed with
  | None => (Some ErrCompress, ad, storage, w)
  | Some raw =>
      let ad := mkDump (MetadataName ad)
                       (Uint64.wrap (Z.of_nat (length raw))) in
      match write_file io outputPath raw w with
      | (Some e, w1) => (Some e, ad, storage, w1)
      | (None, w1) =>
          match simplelru.Get (localDumps storage) (MetadataName ad) with
          | (c, None) =>
              let '(p, w2) := alloc [outputPath] w1 in
              let '(c', w3, _) :=
                simplelru.Add (onEvict m) c (MetadataName ad) p w2 in
              (None, ad, mkStorage c', w3)
          | (c, Some filePaths) =>
              (None, ad, mkStorage c,
               store filePaths (deref w1 filePaths ++ [outputPath])%list w1)
          end
      end
  end.

Definition SendTelemetry (storage : ActivityDumpLocalStorage) (w : World)
    : World :=
  let count := simplelru.Len (localDumps storage) in
  let w1 := if 0 <? count then emit (EvGauge count) w else w in
  let count := deletedCount w1 in
  let w2 := set_deleted 0 w1 in
  if 0 <? count then emit (EvCount (Uint64.to_int64 count)) w2 else w2.
End Storage.

(** ** A concrete instance of the collaborators, for running the model *)

(** Modelled from the spec: [config.StorageRequest.GetOutputPath],
    [compressWithGZip], [config.ParseStorageFormat] are not part of the
    storage file.  Artifact files are named [<identity><formatExtension>],
    optionally followed by [.gz], inside the output directory; the recognised
    format here is [json]; compression may fail, here on an empty buffer. *)
Definition sampleX : Externals :=
  mkExternals
    (fun r filename =>
       OutputDirectory r ++ "/" ++ filename ++ ".json"
         ++ (if Compression r then ".gz" else ""))%string
    (fun _ raw => match raw with [] => None | _ => Some ("z"%char :: raw) end)
    (fun ext => if String.eqb ext ".json" || String.eqb ext "json"
                then Some 0 else None)
    (fun dir name => (dir ++ "/" ++ name)%string).

Definition world0 : World := mkWorld [] ∅ ∅ 0 [].

(** A sequence of [Persist] calls, each with what the file system does to it. *)
Record call := mkCall {
  callRequest : StorageRequest;
  callDump : ActivityDump;
  callRaw : list ascii;
  callFault : option fault
}.

Fixpoint run (X : Externals) (m : ActivityDumpManager) (calls : list call)
    (st : ActivityDumpLocalStorage) (w : World)
    : list (option error) * ActivityDumpLocalStorage * World :=
  match calls with
  | [] => ([], st, w)
  | c :: calls' =>
      let '(e, _, st1, w1) :=
        Persist X m st (callRequest c) (callDump c) (callRaw c) (callFault c) w in
      let '(errs, st', w') := run X m calls' st1 w1 in
      (e :: errs, st', w')
  end.

Definition callName (c : call) : string := MetadataName (callDump c).

Definition callPath (X : Externals) (c : call) : string :=
  GetOutputPath X (callRequest c) (callName c).

(** ** Reachable states

    A storage is built by [NewActivityDumpLocalStorage] and then used through
    [Persist] and [SendTelemetry]; between two calls the file system may
    change under it.  [range] yields every value of the map once. *)

Definition set_files (d : gmap string (list ascii)) (p : gset string)
    (w : World) : World :=
  mkWorld (heap w) d p (deletedCount w) (trace w).

Inductive reachable (X : Externals) (cfg : Config) (m : ActivityDumpManager)
    : ActivityDumpLocalStorage -> World -> Prop :=
| reach_new readDir mkdirAll rangeOrder w st w' :
    (forall l, rangeOrder l ≡ₚ l) ->
    NewActivityDumpLocalStorage X cfg m readDir mkdirAll rangeOrder w
      = inr (st, w') ->
    reachable X cfg m st w'
| reach_persist st w request ad raw io e ad' st' w' :
    reachable X cfg m st w ->
    Persist X m st request ad raw io w = (e, ad', st', w') ->
    reachable X cfg m st' w'
| reach_telemetry st w :
    reachable X cfg m st w ->
    reachable X cfg m st (SendTelemetry st w)
| reach_files st w d p :
    reachable X cfg m st w ->
    reachable X cfg m st (set_files d p w).

(** The three properties that every reachable state has. *)
Definition bounded (cap : Z) (c : simplelru.LRU) : Prop :=
  simplelru.size c = cap /\ 0 < cap /\ simplelru.Len c <= cap.

Definition backed (c : simplelru.LRU) (w : World) : Prop :=
  forall k p, (k, p) ∈ simplelru.evictList c ->
    exists files, heap w !! p = Some files /\ files <> [].

Definition counter_ok (w : World) : Prop :=
  0 <= deletedCount w < Uint64.modulus.

(** ** Reading a trace *)

(** The events of removing [files] with the given outcomes: each attempt,
    followed by a warning when it failed. *)
Fixpoint removal_events (files : list string) (outcomes : list bool)
    : list event :=
  match files, outcomes with
  | f :: files', ok :: outcomes' =>
      (EvRemove f ok :: (if ok then [] else [EvWarn f]))
        ++ removal_events files' outcomes'
  | _, _ => []
  end%list.

(** The paths on which [os.Remove] was called, in order. *)
Fixpoint attempted (evs : list event) : list string :=
  match evs with
  | [] => []
  | EvRemove f _ :: evs' => f :: attempted evs'
  | _ :: evs' => attempted evs'
  end.

Definition is_cleanup (e : event) : bool :=
  match e with EvCleanup _ => true | _ => false end.

(** A [range] order given by a list of names. *)
Definition order_by (names : list string) (l : list dumpFiles)
    : list dumpFiles :=
  flat_map (fun n => filter (fun d => String.eqb (Name d) n = true) l) names.

(** What the security profile manager is told about an evicted file list:
    nothing when there is none. *)
Definition notify_events (m : ActivityDumpManager) (files : list string)
    : list event :=
  match securityProfileManager m with
  | Some _ => [EvCleanup files]
  | None => []
  end.

(** The error that [Persist] returns for a failing file operation. *)
Definition fault_error (f : fault) : error :=
  match f with
  | FaultCreate => ErrCreate
  | FaultChmod => ErrChmod
  | FaultWrite => ErrWrite
  | FaultClose => ErrClose
  | FaultRename => ErrRename
  end.

(** What holds of every dump in the map built by the merge loop. *)
Definition merged (dumps : gmap string dumpFiles) : Prop :=
  forall k ad, dumps !! k = Some ad ->
    Name ad = k /\ Files ad <> [] /\ MTime ad = Time.zero.

(** The entries of the index have pairwise distinct names and pairwise
    distinct pointers, all of them allocated. *)
Definition distinct (c : simplelru.LRU) (w : World) : Prop :=
  NoDup (simplelru.evictList c).*1 /\
  NoDup (simplelru.evictList c).*2 /\
  (forall k p, (k, p) ∈ simplelru.evictList c -> (p < length (heap w))%nat).


(** ** Sample inputs *)

Definition sample_cfg : Config := mkConfig 2 "/d".
Definition sample_mgr : ActivityDumpManager :=
  mkManager (Some TheSecurityProfileManager).
Definition sample_request : StorageRequest := mkRequest "/d" false 0.

Definition sample_call (name : string) : call :=
  mkCall sample_request (mkDump name 0) (list_ascii_of_string "hello") None.

Definition sample_store (cap : Z) : ActivityDumpLocalStorage :=
  mkStorage (simplelru.mkLRU cap []).

(** The name of the dump to which the merge loop attaches a listed file:
    the base name without its extension and, for a [.gz] file, without the
    extension under it. *)
Definition dumpNameOf (name : string) : string :=
  let ext := filepath_Ext name in
  let dumpName := strings_TrimSuffix (filepath_Base name) ext in
  if String.eqb ext ".gz"
  then strings_TrimSuffix dumpName (filepath_Ext dumpName)
  else dumpName.

(** The listed files that the merge loop keeps: those with a known
    extension or [.gz], whose [Info()] succeeds. *)
Definition managed (X : Externals) (f : DirEntry) : bool :=
  let ext := filepath_Ext (entryName f) in
  negb (bool_decide (ParseStorageFormat X ext = None)
        && negb (String.eqb ext ".gz"))
  && bool_decide (is_Some (entryInfo f)).

(** Strings without a path separator, and without separator or dot. *)
Definition no_sep (s : string) : bool :=
  forallb (fun c => negb (is_sep c)) (list_ascii_of_string s).

Definition plain (s : string) : bool :=
  forallb (fun c => negb (is_sep c) && negb (is_dot c)) (list_ascii_of_string s).

(** The file list that a map of dumps holds for a name. *)
Definition filesOf (dumps : gmap string dumpFiles) (k : string) : list string :=
  default [] (Files <$> dumps !! k).

(** A state that the storage reaches: capacity 2, after [d1], [d2], [d3]. *)
Definition sample_st : ActivityDumpLocalStorage :=
  mkStorage (simplelru.mkLRU 2 [("d3", 2%nat); ("d2", 1%nat)]).

Definition sample_w : World :=
  mkWorld [["/d/d1.json"]; ["/d/d2.json"]; ["/d/d3.json"]]
          (<["/d/d3.json" := list_ascii_of_string "hello"]>
             (<["/d/d2.json" := list_ascii_of_string "hello"]> ∅))
          ∅ 1
          [EvCleanup ["/d/d1.json"]; EvRemove "/d/d1.json" true; EvDeletedAdd].

Definition sample_listing : list DirEntry :=
  [mkDirEntry "a.json" (Some 100); mkDirEntry "a.json.gz" (Some 200);
   mkDirEntry "notes.txt" (Some 50); mkDirEntry "b.json" (Some 300);
   mkDirEntry "c.json" None; mkDirEntry "b.json.tmp" (Some 400)].

(** * Properties *)

(** ** The world setters *)

Lemma can_remove_emit e w p : can_remove (emit e w) p = can_remove w p.
Proof. reflexivity. Qed.

(** ** The index *)

Module LRUFacts.
Import simplelru.

Lemma lookup_key_Some k l v : lookup_key k l = Some v -> (k, v) ∈ l.
Proof.
  induction l as [|[k' v'] l IH]; simpl; [discriminate|].
  destruct (String.eqb_spec k k') as [->|Hne].
  - intros [= ->]. apply list_elem_of_here.
  - intros H. apply list_elem_of_further. auto.
Qed.

Lemma lookup_key_None k l : lookup_key k l = None -> forall v, (k, v) ∉ l.
Proof.
  induction l as [|[k' v'] l IH]; simpl; intros H v Hin.
  - by apply elem_of_nil in Hin.
  - destruct (String.eqb_spec k k') as [->|Hne]; [discriminate|].
    apply elem_of_cons in Hin as [[= -> ->]|Hin]; [done|].
    by apply (IH H v).
Qed.

Lemma lookup_key_app_None k l1 l2 :
  lookup_key k (l1 ++ l2) = None ->
  lookup_key k l1 = None /\ lookup_key k l2 = None.
Proof.
  induction l1 as [|[k' v'] l1 IH]; simpl; [done|].
  destruct (String.eqb k k'); [discriminate|]. auto.
Qed.

Lemma length_remove_key k l v :
  lookup_key k l = Some v -> S (length (remove_key k l)) = length l.
Proof.
  induction l as [|[k' v'] l IH]; simpl; [discriminate|].
  destruct (String.eqb k k'); [done|].
  intros H. simpl. by rewrite IH.
Qed.

Lemma remove_key_subseteq k l : remove_key k l ⊆ l.
Proof.
  induction l as [|[k' v'] l IH]; simpl; [done|].
  destruct (String.eqb k k').
  - intros x Hx. by apply list_elem_of_further.
  - intros x Hx. apply elem_of_cons in Hx as [->|Hx].
    + apply list_elem_of_here.
    + apply list_elem_of_further. by apply IH.
Qed.

Section Callback.
Context {S : Type} (onEvict : string -> loc -> S -> S).

Lemma removeOldest_last c l k0 v0 s :
  evictList c = (l ++ [(k0, v0)])%list ->
  removeOldest onEvict c s = (mkLRU (size c) l, onEvict k0 v0 s).
Proof.
  intros H. unfold removeOldest. rewrite H, rev_app_distr. simpl.
  by rewrite rev_involutive.
Qed.

Lemma Add_hit c k v v0 s :
  lookup_key k (evictList c) = Some v0 ->
  Add onEvict c k v s
    = (mkLRU (size c) ((k, v) :: remove_key k (evictList c)), s, false).
Proof. intros H. unfold Add. by rewrite H. Qed.

Lemma Add_room c k v s :
  lookup_key k (evictList c) = None ->
  Len c < size c ->
  Add onEvict c k v s = (mkLRU (size c) ((k, v) :: evictList c), s, false).
Proof.
  intros H Hlt. unfold Add. rewrite H.
  unfold Len in *. simpl.
  destruct (Z.ltb_spec (size c) (Z.of_nat (Datatypes.S (length (evictList c)))));
    [lia|done].
Qed.

Lemma Add_evict c k v s l k0 v0 :
  lookup_key k (evictList c) = None ->
  size c <= Len c ->
  ((k, v) :: evictList c = l ++ [(k0, v0)])%list ->
  Add onEvict c k v s = (mkLRU (size c) l, onEvict k0 v0 s, true).
Proof.
  intros H Hle Hl. unfold Add. rewrite H.
  unfold Len in *. simpl.
  destruct (Z.ltb_spec (size c) (Z.of_nat (Datatypes.S (length (evictList c)))));
    [|lia].
  erewrite removeOldest_last; [|simpl; exact Hl]. done.
Qed.

(** Every call to [Add] is one of the three cases above. *)
Lemma Add_cases c k v s :
  (exists v0, lookup_key k (evictList c) = Some v0 /\
     Add onEvict c k v s
       = (mkLRU (size c) ((k, v) :: remove_key k (evictList c)), s, false))
  \/ (lookup_key k (evictList c) = None /\ Len c < size c /\
     Add onEvict c k v s
       = (mkLRU (size c) ((k, v) :: evictList c), s, false))
  \/ (exists l k0 v0, lookup_key k (evictList c) = None /\ size c <= Len c /\
     ((k, v) :: evictList c = l ++ [(k0, v0)])%list /\
     Add onEvict c k v s = (mkLRU (size c) l, onEvict k0 v0 s, true)).
Proof.
  destruct (lookup_key k (evictList c)) as [v0|] eqn:Hk.
  - left. exists v0. split; [done|]. by eapply Add_hit.
  - right. destruct (Z.lt_ge_cases (Len c) (size c)) as [Hlt|Hge].
    + left. repeat split; [done|]. by apply Add_room.
    + right.
      destruct (exists_last (l := (k, v) :: evictList c)) as (l & [k0 v0] & Hl);
        [done|].
      exists l, k0, v0. repeat split; [done|done|].
      by apply Add_evict.
Qed.
End Callback.

Lemma Get_hit c k v :
  lookup_key k (evictList c) = Some v ->
  Get c k = (mkLRU (size c) ((k, v) :: remove_key k (evictList c)), Some v).
Proof. intros H. unfold Get. by rewrite H. Qed.

Lemma Get_miss c k :
  lookup_key k (evictList c) = None -> Get c k = (c, None).
Proof. intros H. unfold Get. by rewrite H. Qed.
End LRUFacts.

(** ** Removing files *)

Lemma os_Remove_fields p w :
  heap (os_Remove p w).2 = heap w /\
  pinned (os_Remove p w).2 = pinned w /\
  deletedCount (os_Remove p w).2 = deletedCount w /\
  trace (os_Remove p w).2 = (trace w ++ [EvRemove p (os_Remove p w).1])%list.
Proof. unfold os_Remove. by destruct (can_remove w p). Qed.

Lemma os_Remove_disk p w q :
  disk (os_Remove p w).2 !! q =
    if decide (q = p)
    then (if can_remove w p then None else disk w !! p)
    else disk w !! q.
Proof.
  unfold os_Remove. destruct (can_remove w p); simpl.
  - destruct (decide (q = p)) as [->|Hne].
    + apply lookup_delete_eq.
    + by apply lookup_delete_ne.
  - by destruct (decide (q = p)) as [->|Hne].
Qed.

Lemma remove_all_fields files w :
  heap (remove_all files w) = heap w /\
  pinned (remove_all files w) = pinned w /\
  deletedCount (remove_all files w) = deletedCount w.
Proof.
  revert w. induction files as [|f files IH]; intros w; simpl; [done|].
  destruct (os_Remove f w) as [ok w1] eqn:E.
  pose proof (os_Remove_fields f w) as (Hh & Hp & Hd & _).
  rewrite E in Hh, Hp, Hd. simpl in *.
  destruct (IH (if ok then w1 else emit (EvWarn f) w1)) as (-> & -> & ->).
  by destruct ok.
Qed.

Lemma remove_all_trace files w :
  exists outcomes,
    length outcomes = length files /\
    trace (remove_all files w) = (trace w ++ removal_events files outcomes)%list.
Proof.
  revert w. induction files as [|f files IH]; intros w; simpl.
  - exists []. by rewrite app_nil_r.
  - destruct (os_Remove f w) as [ok w1] eqn:E.
    pose proof (os_Remove_fields f w) as (_ & _ & _ & Ht).
    rewrite E in Ht. simpl in Ht.
    destruct (IH (if ok then w1 else emit (EvWarn f) w1)) as (outs & Hlen & ->).
    exists (ok :: outs). split; [simpl; by rewrite Hlen|].
    destruct ok; simpl; rewrite Ht, <- !app_assoc; done.
Qed.

(** A file that is already absent stays absent. *)
Lemma remove_all_absent files w q :
  disk w !! q = None -> disk (remove_all files w) !! q = None.
Proof.
  revert w. induction files as [|f files IH]; intros w Hq; simpl; [done|].
  destruct (os_Remove f w) as [ok w1] eqn:E.
  apply IH.
  pose proof (os_Remove_disk f w q) as Hd. rewrite E in Hd. simpl in Hd.
  assert (disk w1 !! q = None) as Hw1.
  { rewrite Hd. destruct (decide (q = f)) as [->|]; [|done].
    by destruct (can_remove w f). }
  by destruct ok.
Qed.

(** A file of the list whose removal is not refused is gone afterwards. *)
Lemma remove_all_removed files w q :
  q ∈ files -> q ∉ pinned w -> disk (remove_all files w) !! q = None.
Proof.
  revert w. induction files as [|f files IH]; intros w Hin Hpin; simpl.
  - by apply elem_of_nil in Hin.
  - destruct (os_Remove f w) as [ok w1] eqn:E.
    pose proof (os_Remove_disk f w q) as Hd.
    pose proof (os_Remove_fields f w) as (_ & Hp & _ & _).
    rewrite E in Hd, Hp. simpl in Hd, Hp.
    destruct (decide (q = f)) as [->|Hne].
    + apply remove_all_absent.
      assert (disk w1 !! f = None) as Hw1.
      { rewrite Hd. unfold can_remove.
        destruct (disk w !! f) as [x|] eqn:Hf; [|by case_match].
        rewrite bool_decide_eq_true_2 by eauto.
        by rewrite bool_decide_eq_false_2. }
      by destruct ok.
    + apply elem_of_cons in Hin as [?|Hin]; [done|].
      apply IH; [done|]. destruct ok; simpl; by rewrite Hp.
Qed.

(** A file outside the list is not touched. *)
Lemma remove_all_other files w q :
  q ∉ files -> disk (remove_all files w) !! q = disk w !! q.
Proof.
  revert w. induction files as [|f files IH]; intros w Hq; simpl; [done|].
  apply not_elem_of_cons in Hq as [Hne Hq].
  destruct (os_Remove f w) as [ok w1] eqn:E.
  pose proof (os_Remove_disk f w q) as Hd. rewrite E in Hd. simpl in Hd.
  rewrite decide_False in Hd by done.
  rewrite IH by done. by destruct ok.
Qed.

Lemma attempted_app evs1 evs2 :
  attempted (evs1 ++ evs2) = (attempted evs1 ++ attempted evs2)%list.
Proof.
  induction evs1 as [|e evs1 IH]; simpl; [done|].
  destruct e; simpl; by rewrite ?IH.
Qed.

Lemma attempted_removal_events files outcomes :
  length outcomes = length files ->
  attempted (removal_events files outcomes) = files.
Proof.
  revert outcomes. induction files as [|f files IH]; intros [|ok outs] Hlen;
    simpl in *; try done.
  destruct ok; simpl; f_equal; apply IH; lia.
Qed.

Lemma removal_events_warn files outcomes f :
  EvRemove f false ∈ removal_events files outcomes ->
  EvWarn f ∈ removal_events files outcomes.
Proof.
  revert outcomes. induction files as [|g files IH]; intros [|ok outs] Hin;
    simpl in *; try by apply elem_of_nil in Hin.
  destruct ok; simpl in *.
  - apply elem_of_cons in Hin as [[=]|Hin].
    apply list_elem_of_further. by apply IH.
  - apply elem_of_cons in Hin as [[= ->]|Hin].
    + apply list_elem_of_further, list_elem_of_here.
    + apply elem_of_cons in Hin as [[=]|Hin].
      do 2 apply list_elem_of_further. by apply IH.
Qed.

Lemma removal_events_no_cleanup files outcomes :
  Forall (fun e => is_cleanup e = false) (removal_events files outcomes).
Proof.
  revert outcomes. induction files as [|g files IH]; intros [|ok outs];
    simpl; try by constructor.
  destruct ok; simpl; repeat constructor; apply IH.
Qed.

(** ** The eviction callback *)

Lemma Uint64_add_range x y : 0 <= Uint64.add x y < Uint64.modulus.
Proof. unfold Uint64.add, Uint64.wrap. apply Z.mod_pos_bound. reflexivity. Qed.

Lemma onEvict_empty m k p w : deref w p = [] -> onEvict m k p w = w.
Proof. intros H. unfold onEvict. by rewrite H. Qed.

Lemma onEvict_nonempty m k p w :
  deref w p <> [] ->
  let w' := onEvict m k p w in
  heap w' = heap w /\ pinned w' = pinned w /\
  deletedCount w' = Uint64.add (deletedCount w) 1 /\
  (exists outcomes,
     length outcomes = length (deref w p) /\
     trace w' = (trace w ++ notify_events m (deref w p)
                  ++ removal_events (deref w p) outcomes
                  ++ [EvDeletedAdd])%list) /\
  (forall q, q ∈ deref w p -> q ∉ pinned w -> disk w' !! q = None) /\
  (forall q, disk w !! q = None -> disk w' !! q = None) /\
  (forall q, q ∉ deref w p -> disk w' !! q = disk w !! q).
Proof.
  intros Hne. unfold onEvict.
  destruct (deref w p) as [|f files] eqn:Hfiles; [done|].
  cbn [length Nat.eqb]. cbv zeta.
  set (w1 := match securityProfileManager m with
             | Some _ => emit (EvCleanup (f :: files)) w
             | None => w
             end).
  assert (heap w1 = heap w /\ pinned w1 = pinned w /\ disk w1 = disk w /\
          deletedCount w1 = deletedCount w /\
          trace w1 = (trace w ++ notify_events m (f :: files))%list)
    as (Hh & Hp & Hd & Hc & Ht).
  { unfold w1, notify_events. destruct (securityProfileManager m); simpl;
      by rewrite ?app_nil_r. }
  destruct (remove_all_fields (f :: files) w1) as (Hh2 & Hp2 & Hc2).
  destruct (remove_all_trace (f :: files) w1) as (outs & Hlen & Ht2).
  fold w1. unfold emit, set_deleted.
  cbn [heap pinned deletedCount trace disk].
  rewrite Hh2, Hp2, Hc2, Hh, Hp, Hc. repeat split.
  - exists outs. split; [done|]. rewrite Ht2, Ht. by rewrite <- !app_assoc.
  - intros q Hq Hpin. apply remove_all_removed; [done|by rewrite Hp].
  - intros q Hq. apply remove_all_absent. by rewrite Hd.
  - intros q Hq. rewrite remove_all_other by done. by rewrite Hd.
Qed.

Lemma onEvict_heap m k p w : heap (onEvict m k p w) = heap w.
Proof.
  destruct (deref w p) as [|f files] eqn:Hfiles.
  - by rewrite onEvict_empty.
  - apply onEvict_nonempty. by rewrite Hfiles.
Qed.

Lemma onEvict_pinned m k p w : pinned (onEvict m k p w) = pinned w.
Proof.
  destruct (deref w p) as [|f files] eqn:Hfiles.
  - by rewrite onEvict_empty.
  - apply onEvict_nonempty. by rewrite Hfiles.
Qed.

Lemma onEvict_counter_ok m k p w :
  counter_ok w -> counter_ok (onEvict m k p w).
Proof.
  intros Hc. destruct (deref w p) as [|f files] eqn:Hfiles.
  - by rewrite onEvict_empty.
  - unfold counter_ok.
    destruct (onEvict_nonempty m k p w) as (_ & _ & -> & _);
      [by rewrite Hfiles|apply Uint64_add_range].
Qed.

(** ** Invariants of the index *)

Lemma backed_mono c c' w w' :
  simplelru.evictList c' ⊆ simplelru.evictList c ->
  (forall p files, heap w !! p = Some files -> files <> [] ->
     exists files', heap w' !! p = Some files' /\ files' <> []) ->
  backed c w -> backed c' w'.
Proof.
  intros Hsub Hheap Hb k p Hin.
  destruct (Hb k p (Hsub _ Hin)) as (files & Hf & Hne). eauto.
Qed.

Lemma backed_same_heap c w w' : heap w' = heap w -> backed c w -> backed c w'.
Proof.
  intros Hh. apply backed_mono; [done|]. intros p files. rewrite Hh. eauto.
Qed.

Section AddInvariants.
Variable m : ActivityDumpManager.
Import simplelru.

Lemma Add_size c k p w : size (Add (onEvict m) c k p w).1.1 = size c.
Proof.
  destruct (LRUFacts.Add_cases (onEvict m) c k p w)
    as [(v0 & _ & ->)|[(_ & _ & ->)|(l & k0 & v0 & _ & _ & _ & ->)]]; done.
Qed.

Lemma Add_bounded cap c k p w :
  bounded cap c -> bounded cap (Add (onEvict m) c k p w).1.1.
Proof.
  intros (Hsz & Hpos & Hlen). unfold bounded, Len in *.
  destruct (LRUFacts.Add_cases (onEvict m) c k p w)
    as [(v0 & Hk & ->)|[(_ & Hlt & ->)|(l & k0 & v0 & _ & _ & Hl & ->)]];
    simpl; repeat split; try done.
  - apply LRUFacts.length_remove_key in Hk. lia.
  - unfold Len in Hlt. lia.
  - apply (f_equal (@length _)) in Hl. rewrite length_app in Hl.
    simpl in Hl. lia.
Qed.

Lemma Add_entries c k p w :
  evictList (Add (onEvict m) c k p w).1.1 ⊆ (k, p) :: evictList c.
Proof.
  destruct (LRUFacts.Add_cases (onEvict m) c k p w)
    as [(v0 & Hk & ->)|[(_ & Hlt & ->)|(l & k0 & v0 & _ & _ & Hl & ->)]];
    simpl.
  - intros x Hx. apply elem_of_cons in Hx as [->|Hx].
    + apply list_elem_of_here.
    + apply list_elem_of_further. by apply LRUFacts.remove_key_subseteq in Hx.
  - done.
  - rewrite Hl. intros x Hx. apply elem_of_app. by left.
Qed.

Lemma Add_heap c k p w : heap (Add (onEvict m) c k p w).1.2 = heap w.
Proof.
  destruct (LRUFacts.Add_cases (onEvict m) c k p w)
    as [(v0 & Hk & ->)|[(_ & Hlt & ->)|(l & k0 & v0 & _ & _ & Hl & ->)]];
    simpl; try done.
  apply onEvict_heap.
Qed.

Lemma Add_counter_ok c k p w :
  counter_ok w -> counter_ok (Add (onEvict m) c k p w).1.2.
Proof.
  intros Hc.
  destruct (LRUFacts.Add_cases (onEvict m) c k p w)
    as [(v0 & Hk & ->)|[(_ & Hlt & ->)|(l & k0 & v0 & _ & _ & Hl & ->)]];
    simpl; try done.
  by apply onEvict_counter_ok.
Qed.

(** Inserting a freshly allocated, non-empty file list. *)
Lemma alloc_Add_backed c k files w :
  files <> [] -> backed c w ->
  let '(p, w1) := alloc files w in
  backed (Add (onEvict m) c k p w1).1.1 (Add (onEvict m) c k p w1).1.2.
Proof.
  intros Hne Hb. unfold alloc. intros k' p' Hin.
  rewrite Add_heap. simpl.
  apply Add_entries, elem_of_cons in Hin as [[= -> ->]|Hin].
  - exists files. split; [|done].
    rewrite lookup_app_r by done. by rewrite Nat.sub_diag.
  - destruct (Hb k' p' Hin) as (files' & Hf & Hne').
    exists files'. split; [|done]. by apply lookup_app_l_Some.
Qed.
End AddInvariants.

Section StorageInvariants.
Variable X : Externals.
Variable cfg : Config.
Variable m : ActivityDumpManager.

Lemma write_file_fields io outputPath raw w :
  let w' := (write_file io outputPath raw w).2 in
  heap w' = heap w /\ pinned w' = pinned w /\
  deletedCount w' = deletedCount w /\ trace w' = trace w.
Proof. unfold write_file. by destruct io as [[]|]. Qed.

(** A failing [Persist] leaves the index, the file lists, the counter and
    the trace as they were. *)
Lemma Persist_error st request ad raw io w e ad' st' w' :
  Persist X m st request ad raw io w = (Some e, ad', st', w') ->
  st' = st /\ heap w' = heap w /\ deletedCount w' = deletedCount w /\
  trace w' = trace w /\ pinned w' = pinned w.
Proof.
  unfold Persist.
  destruct (if Compression request then _ else _) as [raw'|];
    [|by intros [= <- <- <- <-]].
  pose proof (write_file_fields io
    (GetOutputPath X request (MetadataName ad)) raw' w) as (Hh & Hp & Hd & Ht).
  destruct (write_file _ _ _ _) as [[e1|] w1]; cbn [fst snd] in *.
  - by intros [= <- <- <- <-].
  - destruct (simplelru.Get _ _) as [c [p|]].
    + intros [=].
    + destruct (alloc _ w1) as [p w2].
      destruct (simplelru.Add _ _ _ _ _) as [[c' w3] b]. intros [=].
Qed.

(** The two ways in which [Persist] succeeds. *)
Lemma Persist_ok st request ad raw io w ad' st' w' :
  Persist X m st request ad raw io w = (None, ad', st', w') ->
  let name := MetadataName ad in
  let outputPath := GetOutputPath X request name in
  let c := localDumps st in
  exists raw' w1,
    write_file io outputPath raw' w = (None, w1) /\
    ((exists p, simplelru.lookup_key name (simplelru.evictList c) = Some p /\
        st' = mkStorage (simplelru.mkLRU (simplelru.size c)
                ((name, p) :: simplelru.remove_key name (simplelru.evictList c))) /\
        w' = store p (deref w1 p ++ [outputPath])%list w1)
     \/ (simplelru.lookup_key name (simplelru.evictList c) = None /\
         let '(p, w2) := alloc [outputPath] w1 in
         st' = mkStorage (simplelru.Add (onEvict m) c name p w2).1.1 /\
         w' = (simplelru.Add (onEvict m) c name p w2).1.2)).
Proof.
  unfold Persist.
  destruct (if Compression request then _ else _) as [raw'|];
    [|by intros [=]].
  destruct (write_file _ _ _ _) as [[e1|] w1] eqn:Hw; [by intros [=]|].
  simpl MetadataName.
  destruct (simplelru.lookup_key (MetadataName ad)
              (simplelru.evictList (localDumps st))) as [p|] eqn:Hk.
  - rewrite (LRUFacts.Get_hit _ _ _ Hk). intros [= <- <- <-].
    exists raw', w1. split; [done|]. left. by exists p.
  - rewrite (LRUFacts.Get_miss _ _ Hk).
    destruct (alloc _ _) as [p w2] eqn:Ha.
    destruct (simplelru.Add _ _ _ _ _) as [[c' w3] b] eqn:HA.
    intros [= <- <- <-].
    exists raw', w1. split; [done|]. right. split; [done|].
    rewrite Ha, HA. done.
Qed.

Lemma Persist_bounded cap st request ad raw io w e ad' st' w' :
  Persist X m st request ad raw io w = (e, ad', st', w') ->
  bounded cap (localDumps st) -> bounded cap (localDumps st').
Proof.
  intros HP Hb. destruct e as [e|].
  - apply Persist_error in HP as (-> & _). done.
  - apply Persist_ok in HP as (raw' & w1 & _ & [(p & Hk & -> & _)|(Hk & HA)]).
    + destruct Hb as (Hsz & Hpos & Hlen). unfold bounded, simplelru.Len in *.
      simpl. repeat split; try done.
      apply LRUFacts.length_remove_key in Hk. lia.
    + destruct (alloc _ _) as [p w2]. destruct HA as [-> _].
      by apply Add_bounded.
Qed.

Lemma Persist_counter_ok st request ad raw io w e ad' st' w' :
  Persist X m st request ad raw io w = (e, ad', st', w') ->
  counter_ok w -> counter_ok w'.
Proof.
  intros HP Hc. destruct e as [e|].
  - apply Persist_error in HP as (_ & _ & Hd & _).
    unfold counter_ok. by rewrite Hd.
  - apply Persist_ok in HP as (raw' & w1 & Hw & HP).
    pose proof (write_file_fields io
      (GetOutputPath X request (MetadataName ad)) raw' w) as (_ & _ & Hd & _).
    rewrite Hw in Hd. simpl in Hd.
    destruct HP as [(p & Hk & -> & ->)|(Hk & HA)].
    + unfold counter_ok. simpl. by rewrite Hd.
    + destruct (alloc _ _) as [p w2] eqn:Ha. destruct HA as [_ ->].
      apply Add_counter_ok. unfold alloc in Ha. injection Ha as <- <-.
      unfold counter_ok. simpl. by rewrite Hd.
Qed.

Lemma Persist_backed st request ad raw io w e ad' st' w' :
  Persist X m st request ad raw io w = (e, ad', st', w') ->
  backed (localDumps st) w -> backed (localDumps st') w'.
Proof.
  intros HP Hb. destruct e as [e|].
  - apply Persist_error in HP as (-> & Hh & _). by apply (backed_same_heap _ w).
  - apply Persist_ok in HP as (raw' & w1 & Hw & HP).
    pose proof (write_file_fields io
      (GetOutputPath X request (MetadataName ad)) raw' w) as (Hh & _).
    rewrite Hw in Hh. simpl in Hh.
    assert (backed (localDumps st) w1) as Hb1 by by apply (backed_same_heap _ w).
    destruct HP as [(p & Hk & -> & ->)|(Hk & HA)].
    + intros k' p' Hin. simpl in Hin. unfold store. simpl.
      assert ((k', p') ∈ simplelru.evictList (localDumps st)) as Hin'.
      { apply elem_of_cons in Hin as [[= -> ->]|Hin].
        - by apply LRUFacts.lookup_key_Some.
        - by apply LRUFacts.remove_key_subseteq in Hin. }
      destruct (Hb1 k' p' Hin') as (files & Hf & Hne).
      destruct (decide (p = p')) as [->|Hpp].
      * exists (deref w1 p' ++ [GetOutputPath X request (MetadataName ad)])%list.
        split; [|by destruct (deref w1 p')].
        apply list_lookup_insert_eq. by eapply lookup_lt_Some.
      * exists files. split; [|done]. by rewrite list_lookup_insert_ne.
    + pose proof (alloc_Add_backed m (localDumps st) (MetadataName ad)
                    [GetOutputPath X request (MetadataName ad)] w1) as HB.
      destruct (alloc _ _) as [p w2]. destruct HA as [-> ->].
      by apply HB.
Qed.

Lemma SendTelemetry_fields st w :
  heap (SendTelemetry st w) = heap w /\
  disk (SendTelemetry st w) = disk w /\
  pinned (SendTelemetry st w) = pinned w /\
  deletedCount (SendTelemetry st w) = 0.
Proof.
  unfold SendTelemetry.
  destruct (0 <? simplelru.Len (localDumps st)); simpl;
    destruct (0 <? deletedCount w); done.
Qed.
End StorageInvariants.

(** ** Reconciliation at start-up *)

Lemma bubble_perm x r : bubble x r ≡ₚ x :: r.
Proof.
  induction r as [|y r IH]; simpl; [done|].
  destruct (Less x y); [|done].
  rewrite IH. apply perm_swap.
Qed.

Lemma sort_Sort_perm s : sort_Sort s ≡ₚ s.
Proof.
  unfold sort_Sort.
  assert (forall acc, fold_left (fun r x => bubble x r) s acc ≡ₚ (rev s ++ acc)%list)
    as H.
  { induction s as [|x s IH]; intros acc; simpl; [done|].
    rewrite IH, bubble_perm, <- app_assoc. done. }
  rewrite <- Permutation_rev, H, app_nil_r. by rewrite <- Permutation_rev.
Qed.

(** When no dump is [Less] than another, the sort moves nothing. *)
Lemma sort_Sort_equal s :
  (forall x y, x ∈ s -> y ∈ s -> Less x y = false) -> sort_Sort s = s.
Proof.
  intros Hs. unfold sort_Sort.
  assert (forall t acc, (forall x, x ∈ t -> x ∈ s) -> (forall x, x ∈ acc -> x ∈ s) ->
            fold_left (fun r x => bubble x r) t acc = (rev t ++ acc)%list) as H.
  { induction t as [|x t IH]; intros acc Ht Hacc; simpl; [done|].
    assert (bubble x acc = x :: acc) as ->.
    { destruct acc as [|y acc]; simpl; [done|].
      rewrite Hs; [done|apply Ht, list_elem_of_here|apply Hacc, list_elem_of_here]. }
    rewrite IH, <- app_assoc; [done| |].
    - intros z Hz. by apply Ht, list_elem_of_further.
    - intros z Hz. apply elem_of_cons in Hz as [->|Hz];
        [apply Ht, list_elem_of_here|by apply Hacc]. }
  rewrite H, app_nil_r, rev_involutive; [done|done|].
  intros x Hx. by apply elem_of_nil in Hx.
Qed.

Section Reconciliation.
Variable X : Externals.
Variable cfg : Config.
Variable m : ActivityDumpManager.

Lemma merge_file_merged dumps w f :
  merged dumps -> merged (merge_file X cfg (dumps, w) f).1.
Proof.
  intros Hm. unfold merge_file.
  destruct (_ && _); [done|].
  destruct (entryInfo f) as [modTime|]; [|done].
  cbv zeta. cbn [fst].
  set (dumpName := if String.eqb _ ".gz" then _ else _).
  intros k ad.
  destruct (decide (dumpName = k)) as [<-|Hne].
  - rewrite lookup_insert_eq. intros [= <-]. cbn [Name Files MTime].
    destruct (dumps !! dumpName) as [ad0|] eqn:Hd.
    + destruct (Hm _ _ Hd) as (Hn & _ & Ht). rewrite Ht.
      repeat split; try done. by destruct (Files ad0).
    + done.
  - rewrite lookup_insert_ne by done. apply Hm.
Qed.

Lemma merge_file_world dumps w f :
  let w' := (merge_file X cfg (dumps, w) f).2 in
  heap w' = heap w /\ deletedCount w' = deletedCount w /\
  disk w' = disk w /\ pinned w' = pinned w.
Proof.
  unfold merge_file.
  destruct (_ && _); [done|].
  by destruct (entryInfo f) as [modTime|].
Qed.

Lemma fold_merge_file files dumps w :
  merged dumps ->
  let r := fold_left (merge_file X cfg) files (dumps, w) in
  merged r.1 /\ heap r.2 = heap w /\ deletedCount r.2 = deletedCount w /\
  disk r.2 = disk w /\ pinned r.2 = pinned w.
Proof.
  revert dumps w. induction files as [|f files IH]; intros dumps w Hm;
    cbn [fold_left].
  - done.
  - pose proof (merge_file_merged dumps w f Hm) as Hm'.
    pose proof (merge_file_world dumps w f) as (Hh & Hd & Hk & Hp).
    destruct (merge_file X cfg (dumps, w) f) as [dumps' w'].
    cbn [fst snd] in *.
    destruct (IH dumps' w' Hm') as (H1 & H2 & H3 & H4 & H5).
    cbv zeta. rewrite H2, H3, H4, H5. done.
Qed.

Lemma merged_empty : merged ∅.
Proof. intros k ad. by rewrite lookup_empty. Qed.

Lemma seed_invariants cap c w ad :
  Files ad <> [] ->
  bounded cap c -> backed c w -> counter_ok w ->
  let r := seed m (c, w) ad in
  bounded cap r.1 /\ backed r.1 r.2 /\ counter_ok r.2.
Proof.
  intros Hne Hb Hk Hc. unfold seed.
  pose proof (alloc_Add_backed m c (Name ad) (Files ad) w Hne Hk) as HB.
  destruct (alloc (Files ad) w) as [p w1] eqn:Ha.
  pose proof (Add_bounded m cap c (Name ad) p w1 Hb) as Hb'.
  pose proof (Add_counter_ok m c (Name ad) p w1) as Hc'.
  destruct (simplelru.Add _ _ _ _ _) as [[c' w2] b]. cbn [fst snd] in *.
  split; [done|]. split; [done|]. apply Hc'.
  unfold alloc in Ha. injection Ha as <- <-. done.
Qed.

Lemma fold_seed_invariants cap dumps c w :
  Forall (fun ad => Files ad <> []) dumps ->
  bounded cap c -> backed c w -> counter_ok w ->
  let r := fold_left (seed m) dumps (c, w) in
  bounded cap r.1 /\ backed r.1 r.2 /\ counter_ok r.2.
Proof.
  revert c w. induction dumps as [|ad dumps IH]; intros c w Hall Hb Hk Hc;
    cbn [fold_left]; [done|].
  inversion Hall as [|? ? Hne Hall']; subst.
  pose proof (seed_invariants cap c w ad Hne Hb Hk Hc) as (Hb' & Hk' & Hc').
  destruct (seed m (c, w) ad) as [c' w']. by apply IH.
Qed.

(** The dumps handed to the seeding loop are those of the merged map. *)
Lemma sorted_dumps_merged rangeOrder dumps0 :
  (forall l, rangeOrder l ≡ₚ l) -> merged dumps0 ->
  Forall (fun ad => Files ad <> [] /\ MTime ad = Time.zero)
         (sort_Sort (newDumpFilesSlice rangeOrder dumps0)).
Proof.
  intros Hperm Hm. apply Forall_forall. intros ad Had.
  rewrite sort_Sort_perm in Had. unfold newDumpFilesSlice in Had.
  rewrite Hperm in Had.
  apply list_elem_of_fmap in Had as ([k ad'] & -> & Hin).
  apply elem_of_map_to_list in Hin. by destruct (Hm _ _ Hin) as (_ & ? & ?).
Qed.

Lemma New_invariants readDir mkdirAll rangeOrder w st w' :
  (forall l, rangeOrder l ≡ₚ l) ->
  NewActivityDumpLocalStorage X cfg m readDir mkdirAll rangeOrder w
    = inr (st, w') ->
  bounded (ActivityDumpLocalStorageMaxDumpsCount cfg) (localDumps st) /\
  backed (localDumps st) w' /\ counter_ok w'.
Proof.
  intros Hperm. unfold NewActivityDumpLocalStorage, simplelru.NewLRU.
  set (cap := ActivityDumpLocalStorageMaxDumpsCount cfg).
  destruct (Z.leb_spec cap 0) as [|Hpos]; [done|].
  assert (bounded cap (simplelru.mkLRU cap [])) as Hb0.
  { unfold bounded, simplelru.Len. simpl. lia. }
  assert (forall w0, backed (simplelru.mkLRU cap []) w0) as Hk0.
  { intros w0 k p Hin. by apply elem_of_nil in Hin. }
  assert (counter_ok (set_deleted 0 w)) as Hc0.
  { unfold counter_ok, Uint64.modulus. simpl. lia. }
  destruct (0 <? String.length _)%nat; [|by intros [= <- <-]].
  set (listing := match readDir with ReadDirOk _ => _ | _ => _ end).
  destruct listing as [e|files]; [done|].
  pose proof (fold_merge_file files ∅ (set_deleted 0 w) merged_empty)
    as (Hm & Hh & Hd & _).
  destruct (fold_left (merge_file X cfg) files _) as [dumps0 w1].
  simpl in Hm, Hh, Hd.
  pose proof (sorted_dumps_merged rangeOrder dumps0 Hperm Hm) as Hall.
  pose proof (fold_seed_invariants cap
    (sort_Sort (newDumpFilesSlice rangeOrder dumps0))
    (simplelru.mkLRU cap []) w1) as Hinv.
  destruct (fold_left (seed m) _ _) as [c w2].
  intros [= <- <-]. apply Hinv; try done.
  - eapply Forall_impl; [exact Hall|]. by intros ad [? ?].
  - unfold counter_ok. rewrite Hd. exact Hc0.
Qed.

Lemma reachable_invariants st w :
  reachable X cfg m st w ->
  bounded (ActivityDumpLocalStorageMaxDumpsCount cfg) (localDumps st) /\
  backed (localDumps st) w /\ counter_ok w.
Proof.
  induction 1 as [rd mk ro w st w' Hperm Hnew
                 |st w rq ad raw io e ad' st' w' _ (Hb & Hk & Hc) HP
                 |st w _ (Hb & Hk & Hc)
                 |st w d p _ (Hb & Hk & Hc)].
  - by eapply New_invariants.
  - split; [by eapply Persist_bounded|].
    split; [by eapply Persist_backed|by eapply Persist_counter_ok].
  - destruct (SendTelemetry_fields st w) as (Hh & _ & _ & Hd).
    split; [done|]. split; [by apply (backed_same_heap _ w)|].
    unfold counter_ok. rewrite Hd. unfold Uint64.modulus. lia.
  - split; [done|]. split; [by apply (backed_same_heap _ w)|done].
Qed.
End Reconciliation.

(** In a reachable state every entry of the index points to a file list
    that is not empty. *)
Lemma reachable_files_nonempty X cfg m st w k p :
  reachable X cfg m st w ->
  (k, p) ∈ simplelru.evictList (localDumps st) ->
  deref w p <> [].
Proof.
  intros Hr Hin.
  apply (reachable_invariants X cfg m) in Hr as (_ & Hb & _).
  destruct (Hb k p Hin) as (files & Hf & Hne).
  unfold deref. by rewrite Hf.
Qed.

(** The sort does sort: in its result no element is [Less] than the one
    before it. *)
Lemma bubble_sorted x r :
  Sorted (fun a b => Less a b = false) r ->
  Sorted (fun a b => Less a b = false) (bubble x r).
Proof.
  induction r as [|y r IH]; intros Hs; simpl.
  - repeat constructor.
  - destruct (Less x y) eqn:Hxy.
    + apply Sorted_inv in Hs as [Hs Hhd]. constructor; [by apply IH|].
      destruct r as [|z r]; simpl.
      * constructor. unfold Less, Time.Before in *. lia.
      * inversion Hhd as [|? ? Hyz]; subst.
        destruct (Less x z); constructor; [done|].
        unfold Less, Time.Before in *. lia.
    + constructor; [done|]. by constructor.
Qed.

Lemma Sorted_snoc {A} (R : A -> A -> Prop) l x :
  Sorted R l -> (forall y, last l = Some y -> R y x) -> Sorted R (l ++ [x]).
Proof.
  induction 1 as [|a l Hs IH Hhd]; intros Hlast; simpl.
  - repeat constructor.
  - constructor.
    + apply IH. intros y Hy. apply Hlast.
      destruct l; [done|]. exact Hy.
    + destruct l as [|b l]; simpl.
      * constructor. by apply Hlast.
      * inversion Hhd; subst. by constructor.
Qed.

Lemma Sorted_rev {A} (R : A -> A -> Prop) l :
  Sorted R l -> Sorted (fun a b => R b a) (rev l).
Proof.
  induction 1 as [|a l Hs IH Hhd]; simpl; [constructor|].
  apply Sorted_snoc; [done|].
  intros y Hy. destruct l as [|b l]; [done|].
  inversion Hhd; subst. simpl in Hy.
  rewrite last_snoc in Hy. by injection Hy as <-.
Qed.

Lemma sort_Sort_sorted s :
  Sorted (fun a b => Less b a = false) (sort_Sort s).
Proof.
  unfold sort_Sort. apply (Sorted_rev (fun a b => Less a b = false)).
  assert (forall acc, Sorted (fun a b => Less a b = false) acc ->
            Sorted (fun a b => Less a b = false)
                   (fold_left (fun r x => bubble x r) s acc)) as H.
  { induction s as [|x s IH]; intros acc Hacc; simpl; [done|].
    by apply IH, bubble_sorted. }
  apply H. constructor.
Qed.

(** * The claims *)

(** C1: after construction (with its seeding) and after any sequence of
    [Persist] calls, whatever the file system does in between, the number of
    entries of [localDumps] is at most
    [ActivityDumpLocalStorageMaxDumpsCount]. *)
Theorem C1_index_within_capacity X cfg m st w :
  reachable X cfg m st w ->
  simplelru.Len (localDumps st) <= ActivityDumpLocalStorageMaxDumpsCount cfg.
Proof.
  intros Hr. apply (reachable_invariants X cfg m st w) in Hr as ((_ & _ & Hlen) & _).
  exact Hlen.
Qed.

Lemma C1_index_within_capacity_witness :
  exists st w,
    run sampleX sample_mgr
        [sample_call "d1"; sample_call "d2"; sample_call "d3"]
        (sample_store 2) world0 = ([None; None; None], st, w) /\
    simplelru.Len (localDumps st) <= 2.
Proof.
  eexists _, _. split; [vm_compute; reflexivity|].
  apply (C1_index_within_capacity sampleX sample_cfg sample_mgr _
           (mkWorld [["/d/d1.json"]; ["/d/d2.json"]; ["/d/d3.json"]]
                    (<["/d/d3.json" := list_ascii_of_string "hello"]>
                       (<["/d/d2.json" := list_ascii_of_string "hello"]> ∅))
                    ∅ 1
                    [EvCleanup ["/d/d1.json"]; EvRemove "/d/d1.json" true;
                     EvDeletedAdd])).
  eapply (reach_persist _ _ _ _ _ sample_request (mkDump "d3" 0)
            (list_ascii_of_string "hello") None);
    [eapply (reach_persist _ _ _ _ _ sample_request (mkDump "d2" 0)
               (list_ascii_of_string "hello") None);
     [eapply (reach_persist _ _ _ _ _ sample_request (mkDump "d1" 0)
                (list_ascii_of_string "hello") None);
      [eapply (reach_new _ _ _ (ReadDirOk []) true id world0);
       [intros l; reflexivity|vm_compute; reflexivity]
      |vm_compute; reflexivity]
     |vm_compute; reflexivity]
    |vm_compute; reflexivity].
Defined.

(** C2, as stated, fails: the callback notifies the security profile manager
    only when there is one.  With no manager attached, filling an index of
    capacity 1 and persisting a second dump evicts the first one: its file is
    removed and the counter incremented, and nothing is notified. *)
Lemma C2_counterexample :
  exists st w,
    run sampleX (mkManager None) [sample_call "d1"; sample_call "d2"]
        (sample_store 1) world0 = ([None; None], st, w) /\
    simplelru.lookup_key "d1" (simplelru.evictList (localDumps st)) = None /\
    deletedCount w = 1 /\
    trace w = [EvRemove "/d/d1.json" true; EvDeletedAdd] /\
    ~ (exists paths, EvCleanup paths ∈ trace w).
Proof.
  eexists _, _. split; [vm_compute; reflexivity|].
  cbn [trace deletedCount localDumps simplelru.evictList].
  repeat split; try reflexivity.
  intros (paths & Hin).
  apply elem_of_cons in Hin as [[=]|Hin].
  apply elem_of_cons in Hin as [[=]|Hin].
  by apply elem_of_nil in Hin.
Qed.

(** C2, amended: whenever inserting into the index evicts an entry, the file
    lists in the index being non-empty (as they are in every reachable state),
    the evicted entry is the least recently used one and the callback, before
    [Add] returns, does in this order: (a) when a security profile manager is
    attached, notifies it of the full file list of the evicted entry, and
    nothing when none is attached; (b) attempts to remove every file of the
    list, in order, warning on each failure; (c) adds one to the eviction
    counter, once, however many files the list has. *)
Theorem C2_eviction_contract m c k p w c' w' :
  (forall k1 p1, (k1, p1) ∈ (k, p) :: simplelru.evictList c -> deref w p1 <> []) ->
  simplelru.Add (onEvict m) c k p w = (c', w', true) ->
  exists l k0 p0 outcomes,
    ((k, p) :: simplelru.evictList c = l ++ [(k0, p0)])%list /\
    simplelru.evictList c' = l /\
    length outcomes = length (deref w p0) /\
    trace w' = (trace w
                ++ match securityProfileManager m with
                   | Some _ => [EvCleanup (deref w p0)]
                   | None => []
                   end
                ++ removal_events (deref w p0) outcomes
                ++ [EvDeletedAdd])%list /\
    deletedCount w' = Uint64.add (deletedCount w) 1.
Proof.
  intros Hfiles HA.
  destruct (LRUFacts.Add_cases (onEvict m) c k p w)
    as [(v0 & _ & HA')|[(_ & _ & HA')|(l & k0 & p0 & _ & _ & Hl & HA')]];
    rewrite HA' in HA; try discriminate.
  injection HA as <- <-.
  assert (deref w p0 <> []) as Hne.
  { apply (Hfiles k0). rewrite Hl. apply elem_of_app. right. apply list_elem_of_here. }
  destruct (onEvict_nonempty m k0 p0 w Hne) as (_ & _ & Hd & (outs & Hlen & Ht) & _).
  exists l, k0, p0, outs. repeat split; try done.
Qed.

Lemma C2_eviction_contract_witness :
  exists l k0 p0 outcomes c' w',
    let w := mkWorld [["/d/d1.json"; "/d/d1.json.gz"]; ["/d/d2.json"]]
                     (<["/d/d1.json" := []]> ∅) ∅ 0 [] in
    let c := simplelru.mkLRU 1 [("d1", 0%nat)] in
    simplelru.Add (onEvict sample_mgr) c "d2" 1%nat w = (c', w', true) /\
    (("d2", 1%nat) :: simplelru.evictList c = l ++ [(k0, p0)])%list /\
    simplelru.evictList c' = l /\
    length outcomes = length (deref w p0) /\
    trace w' = (trace w ++ [EvCleanup (deref w p0)]
                ++ removal_events (deref w p0) outcomes
                ++ [EvDeletedAdd])%list /\
    deletedCount w' = Uint64.add (deletedCount w) 1.
Proof.
  pose (w := mkWorld [["/d/d1.json"; "/d/d1.json.gz"]; ["/d/d2.json"]]
                     (<["/d/d1.json" := []]> ∅) ∅ 0 []).
  pose (c := simplelru.mkLRU 1 [("d1", 0%nat)]).
  assert (forall k1 p1, (k1, p1) ∈ ("d2", 1%nat) :: simplelru.evictList c ->
                        deref w p1 <> []) as Hfiles.
  { intros k1 p1 Hin.
    apply elem_of_cons in Hin as [[= -> ->]|Hin]; [discriminate|].
    apply elem_of_cons in Hin as [[= -> ->]|Hin]; [discriminate|].
    by apply elem_of_nil in Hin. }
  destruct (C2_eviction_contract sample_mgr c "d2" 1%nat w
              (simplelru.Add (onEvict sample_mgr) c "d2" 1%nat w).1.1
              (simplelru.Add (onEvict sample_mgr) c "d2" 1%nat w).1.2
              Hfiles eq_refl)
    as (l & k0 & p0 & outs & H).
  exists l, k0, p0, outs,
    (simplelru.Add (onEvict sample_mgr) c "d2" 1%nat w).1.1,
    (simplelru.Add (onEvict sample_mgr) c "d2" 1%nat w).1.2.
  split; [reflexivity|exact H].
Defined.

(** C10: when the file list of the evicted entry is empty, the callback
    returns at once: no notification, no removal, no increment of the
    counter; the world is left as it was. *)
Theorem C10_empty_eviction_is_silent m k p w :
  heap w !! p = Some [] ->
  onEvict m k p w = w.
Proof.
  intros H. apply onEvict_empty. unfold deref. by rewrite H.
Qed.

Lemma C10_empty_eviction_is_silent_witness :
  let w := mkWorld [[]] (<["/d/d1.json" := []]> ∅) ∅ 7 [EvGauge 1] in
  heap w !! 0%nat = Some [] /\
  onEvict sample_mgr "d1" 0%nat w = w /\
  (simplelru.Add (onEvict sample_mgr) (simplelru.mkLRU 1 [("d1", 0%nat)])
                 "d2" 1%nat w).1.2 = w.
Proof.
  split; [reflexivity|]. split.
  - apply (C10_empty_eviction_is_silent sample_mgr "d1" 0%nat). reflexivity.
  - reflexivity.
Defined.

(** C9: when, during an eviction, removing some file of the evicted list
    fails, nothing is propagated: the callback still calls [os.Remove] on
    every file of the list, in order, logs a warning for the failed one,
    removes the files that the file system lets go, and ends by adding one to
    the eviction counter. *)
Theorem C9_removal_failure_not_fatal m k p w f evs :
  trace (onEvict m k p w) = (trace w ++ evs)%list ->
  EvRemove f false ∈ evs ->
  attempted evs = deref w p /\
  EvWarn f ∈ evs /\
  (forall q, q ∈ deref w p -> q ∉ pinned w -> disk (onEvict m k p w) !! q = None) /\
  (exists evs', evs = evs' ++ [EvDeletedAdd])%list /\
  deletedCount (onEvict m k p w) = Uint64.add (deletedCount w) 1.
Proof.
  intros Ht Hf.
  destruct (deref w p) as [|f0 files] eqn:Hfiles.
  { rewrite onEvict_empty in Ht by done.
    rewrite <- (app_nil_r (trace w)) in Ht at 1.
    apply app_inv_head in Ht. subst evs. by apply elem_of_nil in Hf. }
  destruct (onEvict_nonempty m k p w) as (_ & _ & Hd & (outs & Hlen & Ht') & Hrm & _);
    [by rewrite Hfiles|].
  rewrite Hfiles in Hlen, Ht', Hrm.
  rewrite Ht' in Ht. apply app_inv_head in Ht. subst evs.
  split; [|split; [|split; [|split]]].
  - rewrite !attempted_app, attempted_removal_events by done.
    unfold notify_events. destruct (securityProfileManager m); simpl;
      by rewrite app_nil_r.
  - apply elem_of_app in Hf as [Hf|Hf].
    { unfold notify_events in Hf. destruct (securityProfileManager m).
      - apply elem_of_cons in Hf as [[=]|Hf]. by apply elem_of_nil in Hf.
      - by apply elem_of_nil in Hf. }
    apply elem_of_app in Hf as [Hf|Hf].
    + apply elem_of_app. right. apply elem_of_app. left.
      by apply removal_events_warn.
    + apply elem_of_cons in Hf as [[=]|Hf]. by apply elem_of_nil in Hf.
  - exact Hrm.
  - exists (notify_events m (f0 :: files) ++ removal_events (f0 :: files) outs)%list.
    by rewrite <- app_assoc.
  - exact Hd.
Qed.

Lemma C9_removal_failure_not_fatal_witness :
  let w := mkWorld [["/d/a.json"; "/d/a.json.gz"]]
                   (<["/d/a.json" := []]> (<["/d/a.json.gz" := []]> ∅))
                   {["/d/a.json"]} 4 [] in
  let evs := [EvCleanup ["/d/a.json"; "/d/a.json.gz"];
              EvRemove "/d/a.json" false; EvWarn "/d/a.json";
              EvRemove "/d/a.json.gz" true; EvDeletedAdd] in
  let w' := onEvict sample_mgr "a" 0%nat w in
  trace w' = (trace w ++ evs)%list /\
  attempted evs = ["/d/a.json"; "/d/a.json.gz"] /\
  EvWarn "/d/a.json" ∈ evs /\
  disk w' !! "/d/a.json.gz" = None /\
  deletedCount w' = 5.
Proof.
  pose (w := mkWorld [["/d/a.json"; "/d/a.json.gz"]]
                   (<["/d/a.json" := []]> (<["/d/a.json.gz" := []]> ∅))
                   {["/d/a.json"]} 4 []).
  pose (evs := [EvCleanup ["/d/a.json"; "/d/a.json.gz"];
              EvRemove "/d/a.json" false; EvWarn "/d/a.json";
              EvRemove "/d/a.json.gz" true; EvDeletedAdd]).
  assert (trace (onEvict sample_mgr "a" 0%nat w) = (trace w ++ evs)%list) as Ht
    by (vm_compute; reflexivity).
  assert (EvRemove "/d/a.json" false ∈ evs) as Hin
    by (apply list_elem_of_further, list_elem_of_here).
  destruct (C9_removal_failure_not_fatal sample_mgr "a" 0%nat w "/d/a.json" evs
              Ht Hin) as (Ha & Hw & Hrm & _ & Hd).
  split; [exact Ht|]. split; [exact Ha|]. split; [exact Hw|].
  split; [|exact Hd].
  apply Hrm.
  - apply list_elem_of_further, list_elem_of_here.
  - unfold w. cbn [pinned]. intros H. apply elem_of_singleton in H. discriminate.
Defined.

(** C4: when compression, or creating, chmod-ing, writing, closing or
    renaming the file fails, [Persist] returns the error of that step, and
    whenever [Persist] returns an error nothing is registered: the index, the
    file lists it points to, the eviction counter and the trace are as before
    the call. *)
Theorem C4_failed_persist_registers_nothing X m st request ad raw io w :
  let outputPath := GetOutputPath X request (MetadataName ad) in
  let compressed :=
    if Compression request
    then compressWithGZip X (filepath_Base outputPath) raw
    else Some raw in
  let r := Persist X m st request ad raw io w in
  (compressed = None -> r.1.1.1 = Some ErrCompress) /\
  (forall f, compressed <> None -> io = Some f ->
     r.1.1.1 = Some (fault_error f)) /\
  (r.1.1.1 <> None ->
     r.1.2 = st /\ heap r.2 = heap w /\
     deletedCount r.2 = deletedCount w /\ trace r.2 = trace w).
Proof.
  cbv zeta. split; [|split].
  - intros Hc. unfold Persist. by rewrite Hc.
  - intros f Hc Hio. unfold Persist.
    destruct (if Compression request then _ else _) as [raw'|]; [|done].
    subst io. unfold write_file. by destruct f.
  - intros Herr.
    destruct (Persist X m st request ad raw io w) as [[[e ad'] st'] w'] eqn:HP.
    simpl in *. destruct e as [e|]; [|done].
    apply Persist_error in HP as (-> & Hh & Hd & Ht & _). done.
Qed.

Lemma C4_failed_persist_registers_nothing_witness :
  let st := mkStorage (simplelru.mkLRU 2 [("d1", 0%nat)]) in
  let w := mkWorld [["/d/d1.json"]] (<["/d/d1.json" := []]> ∅) ∅ 0 [] in
  let r := Persist sampleX sample_mgr st sample_request (mkDump "d2" 0)
             (list_ascii_of_string "hello") (Some FaultRename) w in
  let z := Persist sampleX sample_mgr st (mkRequest "/d" true 0) (mkDump "d2" 0)
             [] None w in
  r.1.1.1 = Some ErrRename /\ r.1.2 = st /\ heap r.2 = heap w /\
  z.1.1.1 = Some ErrCompress /\ z.1.2 = st.
Proof.
  pose (st := mkStorage (simplelru.mkLRU 2 [("d1", 0%nat)])).
  pose (w := mkWorld [["/d/d1.json"]] (<["/d/d1.json" := []]> ∅) ∅ 0 []).
  destruct (C4_failed_persist_registers_nothing sampleX sample_mgr st
              sample_request (mkDump "d2" 0) (list_ascii_of_string "hello")
              (Some FaultRename) w) as (_ & Hf & Hsame).
  destruct (C4_failed_persist_registers_nothing sampleX sample_mgr st
              (mkRequest "/d" true 0) (mkDump "d2" 0) [] None w)
    as (Hz & _ & Hzsame).
  cbv zeta.
  split; [apply (Hf FaultRename); [discriminate|reflexivity]|].
  split; [apply Hsame; discriminate|].
  split; [apply Hsame; discriminate|].
  split; [apply Hz; reflexivity|].
  apply Hzsame. rewrite Hz by reflexivity. discriminate.
Defined.

Lemma remove_key_perm k l p :
  simplelru.lookup_key k l = Some p -> (k, p) :: simplelru.remove_key k l ≡ₚ l.
Proof.
  induction l as [|[k' v'] l IH]; simpl; [discriminate|].
  destruct (String.eqb_spec k k') as [->|Hne].
  - by intros [= ->].
  - intros H. rewrite perm_swap. by rewrite IH.
Qed.

(** C8: when a [Persist] succeeds for a name that is already in the index,
    the output path is appended to the file list of the existing entry
    (which only moves to the front of the list); no entry is inserted, the
    size of the index is unchanged, and nothing is evicted: no removal, no
    notification, no increment of the counter. *)
Theorem C8_persist_existing_appends X cfg m st w request ad raw io ad' st' w' p :
  reachable X cfg m st w ->
  simplelru.lookup_key (MetadataName ad) (simplelru.evictList (localDumps st))
    = Some p ->
  Persist X m st request ad raw io w = (None, ad', st', w') ->
  simplelru.lookup_key (MetadataName ad) (simplelru.evictList (localDumps st'))
    = Some p /\
  deref w' p = (deref w p ++ [GetOutputPath X request (MetadataName ad)])%list /\
  simplelru.evictList (localDumps st') ≡ₚ simplelru.evictList (localDumps st) /\
  simplelru.Len (localDumps st') = simplelru.Len (localDumps st) /\
  trace w' = trace w /\ deletedCount w' = deletedCount w.
Proof.
  intros Hr Hk HP.
  apply (reachable_invariants X cfg m) in Hr as (_ & Hb & _).
  apply Persist_ok in HP as (raw' & w1 & Hw & HP).
  pose proof (write_file_fields io
    (GetOutputPath X request (MetadataName ad)) raw' w) as (Hh & _ & Hd & Ht).
  rewrite Hw in Hh, Hd, Ht. simpl in Hh, Hd, Ht.
  destruct HP as [(p' & Hk' & -> & ->)|(Hk' & _)]; [|congruence].
  assert (p' = p) as -> by congruence.
  destruct (Hb _ _ (LRUFacts.lookup_key_Some _ _ _ Hk)) as (files & Hf & _).
  assert (deref w1 p = deref w p) as Hderef by (unfold deref; by rewrite Hh).
  split; [simpl; by rewrite String.eqb_refl|].
  split.
  { unfold deref at 1, store. simpl.
    rewrite list_lookup_insert_eq; [by rewrite Hderef|].
    rewrite Hh. by eapply lookup_lt_Some. }
  split; [simpl; by apply remove_key_perm|].
  split.
  { unfold simplelru.Len. simpl.
    apply LRUFacts.length_remove_key in Hk. lia. }
  done.
Qed.

Lemma C8_persist_existing_appends_witness :
  let st := mkStorage (simplelru.mkLRU 2 [("d1", 0%nat)]) in
  let w := mkWorld [["/d/d1.json"]]
                   (<["/d/d1.json" := list_ascii_of_string "hello"]> ∅) ∅ 0 [] in
  let r := Persist sampleX sample_mgr st (mkRequest "/d" true 0) (mkDump "d1" 0)
             (list_ascii_of_string "hello") None w in
  r.1.1.1 = None /\
  deref r.2 0%nat = ["/d/d1.json"; "/d/d1.json.gz"] /\
  simplelru.Len (localDumps r.1.2) = 1 /\
  trace r.2 = [] /\ deletedCount r.2 = 0.
Proof.
  pose (st := mkStorage (simplelru.mkLRU 2 [("d1", 0%nat)])).
  pose (w := mkWorld [["/d/d1.json"]]
                   (<["/d/d1.json" := list_ascii_of_string "hello"]> ∅) ∅ 0 []).
  pose (r := Persist sampleX sample_mgr st (mkRequest "/d" true 0) (mkDump "d1" 0)
             (list_ascii_of_string "hello") None w).
  assert (reachable sampleX sample_cfg sample_mgr st w) as Hr.
  { eapply (reach_persist _ _ _ _ _ sample_request (mkDump "d1" 0)
              (list_ascii_of_string "hello") None);
      [eapply (reach_new _ _ _ (ReadDirOk []) true id world0);
       [intros l; reflexivity|vm_compute; reflexivity]
      |vm_compute; reflexivity]. }
  destruct (C8_persist_existing_appends sampleX sample_cfg sample_mgr st w
              (mkRequest "/d" true 0) (mkDump "d1" 0)
              (list_ascii_of_string "hello") None r.1.1.2 r.1.2 r.2 0%nat
              Hr eq_refl eq_refl) as (_ & Hd & _ & Hl & Ht & Hc).
  split; [reflexivity|]. split; [exact Hd|]. split; [exact Hl|].
  split; [exact Ht|exact Hc].
Defined.



(** ** Filling an empty index *)

Lemma lookup_key_not_elem k l :
  k ∉ l.*1 -> simplelru.lookup_key k l = None.
Proof.
  induction l as [|[k' v'] l IH]; simpl; [done|].
  intros Hk. apply not_elem_of_cons in Hk as [Hne Hk].
  destruct (String.eqb_spec k k'); [done|]. by apply IH.
Qed.

Lemma lookup_key_elem k l :
  simplelru.lookup_key k l = None -> k ∉ l.*1.
Proof.
  intros H Hin. apply list_elem_of_fmap in Hin as ([k' v] & -> & Hin).
  by apply (LRUFacts.lookup_key_None _ _ H v).
Qed.

Lemma fmap_rev {A B} (f : A -> B) (l : list A) : f <$> rev l = rev (f <$> l).
Proof.
  induction l as [|x l IH]; simpl; [done|].
  by rewrite fmap_app, IH.
Qed.

Lemma elem_of_rev {A} (x : A) (l : list A) : x ∈ rev l <-> x ∈ l.
Proof. rewrite !list_elem_of_In. symmetry. apply in_rev. Qed.

Section Runs.
Variable X : Externals.
Variable m : ActivityDumpManager.

Lemma run_app calls1 calls2 st w :
  run X m (calls1 ++ calls2) st w =
    let '(errs1, st1, w1) := run X m calls1 st w in
    let '(errs2, st2, w2) := run X m calls2 st1 w1 in
    ((errs1 ++ errs2)%list, st2, w2).
Proof.
  revert st w. induction calls1 as [|c calls1 IH]; intros st w; simpl.
  - by destruct (run X m calls2 st w) as [[errs2 st2] w2].
  - destruct (Persist X m st _ _ _ _ w) as [[[e ad'] st1] w1].
    rewrite IH.
    destruct (run X m calls1 st1 w1) as [[errs1 st1'] w1'].
    by destruct (run X m calls2 st1' w1') as [[errs2 st2] w2].
Qed.

(** A successful [Persist] of a new name, the index having room. *)
Lemma Persist_new_room st request ad raw io w ad' st' w' :
  Persist X m st request ad raw io w = (None, ad', st', w') ->
  simplelru.lookup_key (MetadataName ad)
    (simplelru.evictList (localDumps st)) = None ->
  simplelru.Len (localDumps st) < simplelru.size (localDumps st) ->
  localDumps st' =
    simplelru.mkLRU (simplelru.size (localDumps st))
      ((MetadataName ad, length (heap w))
         :: simplelru.evictList (localDumps st)) /\
  heap w' = (heap w ++ [[GetOutputPath X request (MetadataName ad)]])%list /\
  trace w' = trace w /\ deletedCount w' = deletedCount w /\
  pinned w' = pinned w.
Proof.
  intros HP Hk Hlt.
  apply Persist_ok in HP as (raw' & w1 & Hw & HP).
  pose proof (write_file_fields io
    (GetOutputPath X request (MetadataName ad)) raw' w) as (Hh & Hp & Hd & Ht).
  rewrite Hw in Hh, Hp, Hd, Ht. simpl in Hh, Hp, Hd, Ht.
  destruct HP as [(p' & Hk' & _)|(_ & HA)]; [congruence|].
  unfold alloc in HA. rewrite LRUFacts.Add_room in HA by done.
  destruct HA as [-> ->]. simpl. by rewrite Hh, Hp, Hd, Ht.
Qed.

(** A successful [Persist] of a new name, the index being full. *)
Lemma Persist_new_full st request ad raw io w ad' st' w' l k0 p0 :
  Persist X m st request ad raw io w = (None, ad', st', w') ->
  simplelru.lookup_key (MetadataName ad)
    (simplelru.evictList (localDumps st)) = None ->
  simplelru.size (localDumps st) <= simplelru.Len (localDumps st) ->
  simplelru.evictList (localDumps st) = (l ++ [(k0, p0)])%list ->
  exists w2,
    heap w2 = (heap w ++ [[GetOutputPath X request (MetadataName ad)]])%list /\
    trace w2 = trace w /\ deletedCount w2 = deletedCount w /\
    pinned w2 = pinned w /\
    localDumps st' =
      simplelru.mkLRU (simplelru.size (localDumps st))
        ((MetadataName ad, length (heap w)) :: l) /\
    w' = onEvict m k0 p0 w2.
Proof.
  intros HP Hk Hle Hl.
  apply Persist_ok in HP as (raw' & w1 & Hw & HP).
  pose proof (write_file_fields io
    (GetOutputPath X request (MetadataName ad)) raw' w) as (Hh & Hp & Hd & Ht).
  rewrite Hw in Hh, Hp, Hd, Ht. simpl in Hh, Hp, Hd, Ht.
  destruct HP as [(p' & Hk' & _)|(_ & HA)]; [congruence|].
  unfold alloc in HA.
  rewrite (LRUFacts.Add_evict _ _ _ _ _
             ((MetadataName ad, length (heap w1)) :: l) k0 p0) in HA;
    [|done|done|by rewrite Hl].
  destruct HA as [-> ->].
  exists (set_heap (heap w1 ++ [[GetOutputPath X request (MetadataName ad)]]) w1).
  simpl. by rewrite Hh, Hp, Hd, Ht.
Qed.

(** Successful calls with distinct new names, as long as there is room,
    pile up in the index, most recent first, and evict nothing. *)
Lemma run_fill calls : forall st w errs st' w',
  run X m calls st w = (errs, st', w') ->
  Forall (fun e => e = None) errs ->
  NoDup (callName <$> calls) ->
  (forall c, c ∈ calls ->
     callName c ∉ (simplelru.evictList (localDumps st)).*1) ->
  simplelru.Len (localDumps st) + Z.of_nat (length calls)
    <= simplelru.size (localDumps st) ->
  simplelru.evictList (localDumps st') =
    (rev (zip (callName <$> calls) (seq (length (heap w)) (length calls)))
     ++ simplelru.evictList (localDumps st))%list /\
  simplelru.size (localDumps st') = simplelru.size (localDumps st) /\
  heap w' = (heap w ++ ((fun c => [callPath X c]) <$> calls))%list /\
  trace w' = trace w /\ deletedCount w' = deletedCount w /\
  pinned w' = pinned w.
Proof.
  induction calls as [|c calls IH]; intros st w errs st' w' Hrun Hok Hnd Hnew Hroom.
  - simpl in Hrun. injection Hrun as <- <- <-. simpl.
    by rewrite app_nil_r.
  - simpl in Hrun.
    destruct (Persist X m st _ _ _ _ w) as [[[e ad'] st1] w1] eqn:HP.
    destruct (run X m calls st1 w1) as [[errs1 st1'] w1'] eqn:Hrun1.
    injection Hrun as <- <- <-.
    inversion Hok as [|? ? He Hok1]; subst.
    rewrite fmap_cons in Hnd. apply NoDup_cons in Hnd as [Hc Hnd].
    simpl length in Hroom.
    assert (simplelru.lookup_key (callName c)
              (simplelru.evictList (localDumps st)) = None) as Hk.
    { apply lookup_key_not_elem, Hnew, list_elem_of_here. }
    destruct (Persist_new_room _ _ _ _ _ _ _ _ _ HP Hk)
      as (Hst1 & Hh1 & Ht1 & Hd1 & Hp1); [lia|].
    destruct (IH st1 w1 errs1 st1' w1' Hrun1 Hok1 Hnd)
      as (Hl & Hs & Hh & Ht & Hd & Hp).
    { intros c' Hc'. rewrite Hst1. simpl.
      apply not_elem_of_cons. split.
      - intros Heq. apply Hc.
        apply list_elem_of_fmap. exists c'. split; [|done].
        symmetry. exact Heq.
      - apply Hnew. by apply list_elem_of_further. }
    { rewrite Hst1. unfold simplelru.Len in *. simpl. lia. }
    rewrite Hl, Hs, Hh, Ht, Hd, Hp, Hst1, Hh1, Ht1, Hd1, Hp1. simpl.
    rewrite length_app, Nat.add_1_r. simpl.
    rewrite <- !app_assoc. done.
Qed.
End Runs.

(** C3, as stated, fails: a file whose removal the file system refuses stays
    on disk, the callback only logging the failure.  With a capacity of 2 and
    the file of the first dump pinned, three successful [Persist] calls for
    three distinct names leave 2 entries, the first name gone from the index
    and the counter at 1, and the first file still on disk. *)
Lemma C3_counterexample :
  exists st w,
    run sampleX sample_mgr
        [sample_call "d1"; sample_call "d2"; sample_call "d3"]
        (sample_store 2) (mkWorld [] ∅ {["/d/d1.json"]} 0 [])
      = ([None; None; None], st, w) /\
    simplelru.Len (localDumps st) = 2 /\
    simplelru.lookup_key "d1" (simplelru.evictList (localDumps st)) = None /\
    deletedCount w = 1 /\
    trace w = [EvCleanup ["/d/d1.json"]; EvRemove "/d/d1.json" false;
               EvWarn "/d/d1.json"; EvDeletedAdd] /\
    disk w !! "/d/d1.json" = Some (list_ascii_of_string "hello").
Proof.
  eexists _, _. split; [vm_compute; reflexivity|].
  repeat split; vm_compute; reflexivity.
Qed.

(** C3, amended: on an empty index of capacity [N], with the counter at zero,
    [N + 1] successful [Persist] calls for [N + 1] distinct names leave
    exactly [N] entries, those of the [N] last names; the entry of the first
    name is gone, the removal of its file has been attempted, the file being
    no longer on disk unless the file system refuses the removal, and the
    counter is [1].  The eviction is all in the last call: before it the
    trace and the counter are untouched, and when it returns the removal has
    been attempted and the counter incremented. *)
Theorem C3_capacity_plus_one X m N first calls last st0 w0 errs st w :
  localDumps st0 = simplelru.mkLRU N [] ->
  deletedCount w0 = 0 ->
  Z.of_nat (length (first :: calls)) = N ->
  NoDup (callName <$> (first :: calls ++ [last])%list) ->
  run X m (first :: calls ++ [last])%list st0 w0 = (errs, st, w) ->
  Forall (fun e => e = None) errs ->
  simplelru.Len (localDumps st) = N /\
  (simplelru.evictList (localDumps st)).*1 = rev (callName <$> (calls ++ [last])%list) /\
  simplelru.lookup_key (callName first) (simplelru.evictList (localDumps st))
    = None /\
  (callPath X first ∉ pinned w0 -> disk w !! callPath X first = None) /\
  deletedCount w = 1 /\
  (exists errsN stN wN evs,
     run X m (first :: calls) st0 w0 = (errsN, stN, wN) /\
     trace wN = trace w0 /\ deletedCount wN = 0 /\
     trace w = (trace w0 ++ evs ++ [EvDeletedAdd])%list /\
     attempted evs = [callPath X first]).
Proof.
  intros Hst0 Hd0 HN Hnd Hrun Hok.
  change (first :: calls ++ [last])%list with ((first :: calls) ++ [last])%list in Hrun.
  rewrite run_app in Hrun.
  destruct (run X m (first :: calls) st0 w0) as [[errsN stN] wN] eqn:HrunN.
  simpl in Hrun.
  destruct (Persist X m stN _ _ _ _ wN) as [[[e ad'] st1] w1] eqn:HP.
  injection Hrun as <- <- <-.
  apply Forall_app in Hok as [HokN Hok1].
  inversion Hok1 as [|? ? He _]; subst e.
  change (first :: calls ++ [last])%list with ((first :: calls) ++ [last])%list in Hnd.
  rewrite fmap_app in Hnd. apply NoDup_app in Hnd as (HndN & Hdisj & _).
  destruct (run_fill X m (first :: calls) st0 w0 errsN stN wN HrunN HokN HndN)
    as (Hl & Hs & Hh & Ht & Hd & Hp).
  { intros c _. rewrite Hst0. simpl. apply not_elem_of_nil. }
  { rewrite Hst0. unfold simplelru.Len. simpl. simpl in HN. lia. }
  rewrite Hst0 in Hl, Hs. simpl in Hl, Hs. rewrite app_nil_r in Hl.
  set (h0 := length (heap w0)) in *.
  set (older := rev (zip (callName <$> calls) (seq (S h0) (length calls)))) in *.
  assert ((simplelru.evictList (localDumps stN)).*1
            = rev (callName <$> (first :: calls))) as Hkeys.
  { rewrite Hl, fmap_app. unfold older. rewrite fmap_rev, fst_zip; [done|].
    rewrite length_fmap, length_seq. done. }
  assert (simplelru.lookup_key (callName last)
            (simplelru.evictList (localDumps stN)) = None) as Hk.
  { apply lookup_key_not_elem. rewrite Hkeys. intros Hin.
    rewrite elem_of_rev in Hin. apply (Hdisj _ Hin).
    simpl. apply list_elem_of_here. }
  destruct (Persist_new_full X m stN _ _ _ _ wN _ _ _ older (callName first) h0 HP Hk)
    as (w2 & Hh2 & Ht2 & Hd2 & Hp2 & Hst & ->).
  { unfold simplelru.Len. rewrite Hs, Hl, length_app. simpl.
    unfold older. rewrite length_rev, length_zip, length_fmap, length_seq.
    simpl in HN. lia. }
  { exact Hl. }
  assert (deref w2 h0 = [callPath X first]) as Hderef.
  { unfold deref. rewrite Hh2, Hh. simpl.
    rewrite lookup_app_l.
    - unfold h0. by rewrite list_lookup_middle.
    - rewrite length_app. simpl. unfold h0. lia. }
  destruct (onEvict_nonempty m (callName first) h0 w2)
    as (_ & _ & Hd3 & (outs & Hlen & Ht3) & Hrm & _); [by rewrite Hderef|].
  rewrite Hderef in Hlen, Ht3, Hrm.
  split.
  { rewrite Hst, Hs. unfold simplelru.Len. simpl.
    unfold older. rewrite length_rev, length_zip, length_fmap, length_seq.
    simpl in HN. lia. }
  assert ((simplelru.evictList (localDumps st1)).*1
            = rev (callName <$> (calls ++ [last])%list)) as Hkeys1.
  { rewrite Hst. simpl. rewrite fmap_app, rev_app_distr. simpl. f_equal.
    unfold older. rewrite fmap_rev, fst_zip; [done|].
    rewrite length_fmap, length_seq. done. }
  split; [exact Hkeys1|].
  split.
  { apply lookup_key_not_elem. rewrite Hkeys1. intros Hin.
    rewrite elem_of_rev in Hin. rewrite fmap_app in Hin.
    apply elem_of_app in Hin as [Hin|Hin].
    - simpl in HndN. apply NoDup_cons in HndN as [Hn _]. by apply Hn.
    - apply (Hdisj (callName first)); [apply list_elem_of_here|done]. }
  split.
  { intros Hpin. apply Hrm; [apply list_elem_of_here|]. by rewrite Hp2, Hp. }
  split.
  { rewrite Hd3, Hd2, Hd, Hd0. reflexivity. }
  exists errsN, stN, wN,
    (notify_events m [callPath X first]
     ++ removal_events [callPath X first] outs)%list.
  split; [done|]. split; [done|]. split; [by rewrite Hd|].
  split.
  { rewrite Ht3, Ht2, Ht. by rewrite <- !app_assoc. }
  rewrite attempted_app, attempted_removal_events by done.
  unfold notify_events. by destruct (securityProfileManager m).
Qed.

Lemma C3_capacity_plus_one_witness :
  exists st w,
    run sampleX sample_mgr
        [sample_call "d1"; sample_call "d2"; sample_call "d3"]
        (sample_store 2) world0 = ([None; None; None], st, w) /\
    simplelru.Len (localDumps st) = 2 /\
    (simplelru.evictList (localDumps st)).*1 = ["d3"; "d2"] /\
    disk w !! "/d/d1.json" = None /\
    deletedCount w = 1.
Proof.
  pose (r := run sampleX sample_mgr
        [sample_call "d1"; sample_call "d2"; sample_call "d3"]
        (sample_store 2) world0).
  assert (NoDup (callName <$> [sample_call "d1"; sample_call "d2";
                               sample_call "d3"])) as Hnd.
  { apply (NoDup_fmap_2_strong _); [|].
    - intros x y Hx Hy.
      repeat (apply elem_of_cons in Hx as [->|Hx]);
        repeat (apply elem_of_cons in Hy as [->|Hy]);
        try reflexivity; try discriminate;
        try (by apply elem_of_nil in Hx); by apply elem_of_nil in Hy.
    - repeat (apply NoDup_cons; split;
              [intros H; repeat (apply elem_of_cons in H as [H|H];
                                 [discriminate|]); by apply elem_of_nil in H|]).
      apply NoDup_nil_2. }
  destruct (C3_capacity_plus_one sampleX sample_mgr 2
              (sample_call "d1") [sample_call "d2"] (sample_call "d3")
              (sample_store 2) world0 [None; None; None] r.1.2 r.2
              eq_refl eq_refl eq_refl Hnd)
    as (Hlen & Hkeys & _ & Hdisk & Hd & _).
  - vm_compute. reflexivity.
  - repeat constructor.
  - exists r.1.2, r.2. split; [vm_compute; reflexivity|].
    split; [exact Hlen|]. split; [exact Hkeys|].
    split; [apply Hdisk, not_elem_of_empty|exact Hd].
Defined.

(** ** What reconciliation does with modification times *)

(** The merge loop only raises [MTime] when it is already non-zero, and it
    starts at zero: every merged dump keeps the zero time, whatever the
    modification times of its files. *)
Lemma merged_mtime_zero X cfg files w k ad :
  (fold_left (merge_file X cfg) files (∅, w)).1 !! k = Some ad ->
  MTime ad = Time.zero.
Proof.
  intros H.
  destruct (fold_merge_file X cfg files ∅ w merged_empty) as (Hm & _).
  by destruct (Hm k ad H) as (_ & _ & ?).
Qed.

(** Hence the sort has nothing to compare, and the dumps are seeded in the
    order in which [range] walked the map. *)
Lemma seeding_follows_range_order X cfg files w rangeOrder :
  (forall l, rangeOrder l ≡ₚ l) ->
  let dumps0 := (fold_left (merge_file X cfg) files (∅, w)).1 in
  sort_Sort (newDumpFilesSlice rangeOrder dumps0)
    = newDumpFilesSlice rangeOrder dumps0.
Proof.
  intros Hperm dumps0. apply sort_Sort_equal.
  assert (forall x, x ∈ newDumpFilesSlice rangeOrder dumps0 ->
                    MTime x = Time.zero) as Hz.
  { intros x Hx. unfold newDumpFilesSlice in Hx. rewrite Hperm in Hx.
    apply list_elem_of_fmap in Hx as ([k ad] & -> & Hin).
    apply elem_of_map_to_list in Hin. by eapply merged_mtime_zero. }
  intros x y Hx Hy. unfold Less, Time.Before.
  rewrite (Hz x Hx), (Hz y Hy). reflexivity.
Qed.

(** C5 (the code departs from the claim): with [a.json] modified at time 100
    and [a.json.gz] at time 200 in the output directory, the merge loop
    groups both under the name [a], and the [MTime] of the group is the zero
    time, not 200. *)
Theorem C5_mtime_is_never_set :
  let files := [mkDirEntry "a.json" (Some 100);
                mkDirEntry "a.json.gz" (Some 200)] in
  let dumps := (fold_left (merge_file sampleX sample_cfg) files (∅, world0)).1 in
  dumps !! "a" = Some (mkDumpFiles "a" ["/d/a.json"; "/d/a.json.gz"] Time.zero) /\
  MTime <$> dumps !! "a" <> Some 200.
Proof.
  cbv zeta. split; [vm_compute; reflexivity|].
  vm_compute. discriminate.
Qed.

(** C6 (the code departs from the claim): with three dumps on disk, [a]
    modified at 100, [b] at 200 and [c] at 300, a capacity of 2, and [range]
    yielding [c], [b], [a], the dumps are seeded in that order, and the one
    evicted is [c], the most recently modified; [a], the oldest, stays. *)
Theorem C6_eviction_ignores_mtime :
  let files := [mkDirEntry "a.json" (Some 100);
                mkDirEntry "b.json" (Some 200);
                mkDirEntry "c.json" (Some 300)] in
  let w0 := mkWorld []
              (<["/d/a.json" := []]> (<["/d/b.json" := []]>
                 (<["/d/c.json" := []]> ∅))) ∅ 0 [] in
  let dumps0 := (fold_left (merge_file sampleX sample_cfg) files (∅, w0)).1 in
  Name <$> sort_Sort (newDumpFilesSlice (order_by ["c"; "b"; "a"]) dumps0)
    = ["c"; "b"; "a"] /\
  exists st w,
    NewActivityDumpLocalStorage sampleX sample_cfg sample_mgr
      (ReadDirOk files) true (order_by ["c"; "b"; "a"]) w0 = inr (st, w) /\
    (simplelru.evictList (localDumps st)).*1 = ["a"; "b"] /\
    trace w = [EvCleanup ["/d/c.json"]; EvRemove "/d/c.json" true;
               EvDeletedAdd] /\
    disk w !! "/d/c.json" = None /\
    disk w !! "/d/a.json" = Some [].
Proof.
  cbv zeta. split; [vm_compute; reflexivity|].
  eexists _, _. split; [vm_compute; reflexivity|].
  repeat split; vm_compute; reflexivity.
Qed.

(** * Further properties of the storage *)

(** ** Names and pointers in the index are distinct *)

Lemma remove_key_sublist k l : simplelru.remove_key k l `sublist_of` l.
Proof.
  induction l as [|[k' v'] l IH]; simpl; [done|].
  destruct (String.eqb k k').
  - by apply sublist_cons.
  - by apply sublist_skip.
Qed.

Lemma distinct_heap c w w' :
  (length (heap w) <= length (heap w'))%nat -> distinct c w -> distinct c w'.
Proof.
  intros Hle (Hk & Hp & Hlt). repeat split; try done.
  intros k p Hin. specialize (Hlt k p Hin). lia.
Qed.

Lemma distinct_moved c w k p :
  distinct c w ->
  simplelru.lookup_key k (simplelru.evictList c) = Some p ->
  distinct (simplelru.mkLRU (simplelru.size c)
              ((k, p) :: simplelru.remove_key k (simplelru.evictList c))) w.
Proof.
  intros (Hk & Hp & Hlt) Hlook.
  pose proof (remove_key_perm _ _ _ Hlook) as Hperm.
  unfold distinct. simpl simplelru.evictList.
  split; [by rewrite Hperm|]. split; [by rewrite Hperm|].
  intros k' p' Hin. rewrite Hperm in Hin. by apply (Hlt k').
Qed.

Lemma Add_nodup m c k (p : loc) w :
  NoDup (simplelru.evictList c).*1 ->
  NoDup (simplelru.evictList c).*2 ->
  (forall k' p', (k', p') ∈ simplelru.evictList c -> (p' < p)%nat) ->
  let c' := (simplelru.Add (onEvict m) c k p w).1.1 in
  NoDup (simplelru.evictList c').*1 /\
  NoDup (simplelru.evictList c').*2 /\
  (forall k' p', (k', p') ∈ simplelru.evictList c' -> (p' <= p)%nat).
Proof.
  intros Hk Hp Hlt c'.
  assert (p ∉ (simplelru.evictList c).*2) as Hpnew.
  { intros Hin. apply list_elem_of_fmap in Hin as ([k' p'] & Heq & Hin).
    specialize (Hlt _ _ Hin). simpl in Heq. lia. }
  assert (NoDup (p :: (simplelru.evictList c).*2)) as Hp2
    by (by apply NoDup_cons).
  assert (forall k' p', (k', p') ∈ (k, p) :: simplelru.evictList c ->
            (p' <= p)%nat) as Hlt2.
  { intros k' p' Hin. apply elem_of_cons in Hin as [[= -> ->]|Hin]; [lia|].
    specialize (Hlt k' p' Hin). lia. }
  unfold c'.
  destruct (LRUFacts.Add_cases (onEvict m) c k p w)
    as [(v0 & Hlook & ->)|[(Hlook & _ & ->)|(l & k0 & p0 & Hlook & _ & Hl & ->)]];
    cbn [fst snd simplelru.evictList].
  - pose proof (remove_key_perm _ _ _ Hlook) as Hperm.
    split; [|split].
    + change (NoDup ((k, v0) :: simplelru.remove_key k (simplelru.evictList c)).*1).
      by rewrite Hperm.
    + change (NoDup (p :: (simplelru.remove_key k (simplelru.evictList c)).*2)).
      apply NoDup_cons. split.
      * intros Hin. apply Hpnew.
        eapply elem_of_sublist; [exact Hin|].
        apply fmap_sublist, remove_key_sublist.
      * eapply sublist_NoDup;
          [exact Hp|apply fmap_sublist, remove_key_sublist].
    + intros k' p' Hin. apply (Hlt2 k').
      apply elem_of_cons in Hin as [->|Hin]; [apply list_elem_of_here|].
      apply list_elem_of_further.
      eapply elem_of_sublist; [exact Hin|apply remove_key_sublist].
  - split; [|split; [done|done]].
    change (NoDup (k :: (simplelru.evictList c).*1)).
    apply NoDup_cons. split; [|done]. by apply lookup_key_elem.
  - assert (NoDup ((k, p) :: simplelru.evictList c).*1) as Hk2.
    { change (NoDup (k :: (simplelru.evictList c).*1)).
      apply NoDup_cons. split; [|done]. by apply lookup_key_elem. }
    assert (NoDup ((k, p) :: simplelru.evictList c).*2) as Hp3 by exact Hp2.
    rewrite Hl, fmap_app in Hk2. rewrite Hl, fmap_app in Hp3.
    apply NoDup_app in Hk2 as (Hk2 & _). apply NoDup_app in Hp3 as (Hp3 & _).
    split; [done|]. split; [done|].
    intros k' p' Hin. apply (Hlt2 k'). rewrite Hl. apply elem_of_app. by left.
Qed.

Lemma distinct_alloc_Add m c k files w :
  distinct c w ->
  let '(p, w1) := alloc files w in
  distinct (simplelru.Add (onEvict m) c k p w1).1.1
           (simplelru.Add (onEvict m) c k p w1).1.2.
Proof.
  intros (Hk & Hp & Hlt). unfold alloc.
  set (w1 := set_heap (heap w ++ [files]) w).
  destruct (Add_nodup m c k (length (heap w)) w1 Hk Hp Hlt) as (H1 & H2 & H3).
  split; [done|]. split; [done|].
  intros k' p' Hin. rewrite Add_heap. specialize (H3 k' p' Hin).
  unfold w1. simpl. rewrite length_app. simpl. lia.
Qed.

Lemma Persist_distinct X m st request ad raw io w e ad' st' w' :
  Persist X m st request ad raw io w = (e, ad', st', w') ->
  distinct (localDumps st) w -> distinct (localDumps st') w'.
Proof.
  intros HP Hd. destruct e as [e|].
  - apply Persist_error in HP as (-> & Hh & _).
    apply (distinct_heap _ w); [by rewrite Hh|done].
  - apply Persist_ok in HP as (raw' & w1 & Hw & HP).
    pose proof (write_file_fields io
      (GetOutputPath X request (MetadataName ad)) raw' w) as (Hh & _).
    rewrite Hw in Hh. simpl in Hh.
    assert (distinct (localDumps st) w1) as Hd1.
    { apply (distinct_heap _ w); [by rewrite Hh|done]. }
    destruct HP as [(p & Hk & -> & ->)|(Hk & HA)].
    + apply (distinct_heap _ w1).
      * unfold store. simpl. by rewrite length_insert.
      * by apply distinct_moved.
    + pose proof (distinct_alloc_Add m (localDumps st) (MetadataName ad)
                    [GetOutputPath X request (MetadataName ad)] w1 Hd1) as HB.
      destruct (alloc _ w1) as [p w2]. by destruct HA as [-> ->].
Qed.

Lemma fold_seed_distinct m dumps c w :
  distinct c w ->
  distinct (fold_left (seed m) dumps (c, w)).1 (fold_left (seed m) dumps (c, w)).2.
Proof.
  revert c w. induction dumps as [|ad dumps IH]; intros c w Hd;
    cbn [fold_left]; [done|].
  assert (distinct (seed m (c, w) ad).1 (seed m (c, w) ad).2) as Hd'.
  { unfold seed.
    pose proof (distinct_alloc_Add m c (Name ad) (Files ad) w Hd) as HB.
    destruct (alloc (Files ad) w) as [p w1].
    by destruct (simplelru.Add _ _ _ _ _) as [[c' w2] b]. }
  destruct (seed m (c, w) ad) as [c' w']. by apply IH.
Qed.

Lemma New_distinct X cfg m readDir mkdirAll rangeOrder w st w' :
  NewActivityDumpLocalStorage X cfg m readDir mkdirAll rangeOrder w
    = inr (st, w') ->
  distinct (localDumps st) w'.
Proof.
  unfold NewActivityDumpLocalStorage, simplelru.NewLRU.
  destruct (_ <=? 0); [done|].
  assert (forall w0, distinct (simplelru.mkLRU
            (ActivityDumpLocalStorageMaxDumpsCount cfg) []) w0) as Hd0.
  { intros w0. repeat split; simpl; try apply NoDup_nil_2.
    intros k p Hin. by apply elem_of_nil in Hin. }
  destruct (0 <? String.length _)%nat; [|by intros [= <- <-]].
  destruct (match readDir with ReadDirOk _ => _ | _ => _ end) as [e|files];
    [done|].
  destruct (fold_left (merge_file X cfg) files _) as [dumps0 w1].
  pose proof (fold_seed_distinct m
    (sort_Sort (newDumpFilesSlice rangeOrder dumps0))
    (simplelru.mkLRU (ActivityDumpLocalStorageMaxDumpsCount cfg) []) w1
    (Hd0 w1)) as Hd.
  destruct (fold_left (seed m) _ _) as [c w2].
  by intros [= <- <-].
Qed.

Lemma reachable_distinct X cfg m st w :
  reachable X cfg m st w -> distinct (localDumps st) w.
Proof.
  induction 1 as [rd mk ro w st w' Hperm Hnew
                 |st w rq ad raw io e ad' st' w' _ IH HP
                 |st w _ IH
                 |st w d p _ IH].
  - by eapply New_distinct.
  - by eapply Persist_distinct.
  - apply (distinct_heap _ w); [|done].
    by destruct (SendTelemetry_fields st w) as (-> & _).
  - by apply (distinct_heap _ w).
Qed.

(** X1: in every state the storage can reach, no name occurs twice in the
    index and no two entries share a file list: each dump has one entry, with
    a file list of its own. *)
Theorem X1_one_entry_per_dump X cfg m st w :
  reachable X cfg m st w ->
  NoDup (simplelru.evictList (localDumps st)).*1 /\
  NoDup (simplelru.evictList (localDumps st)).*2.
Proof.
  intros Hr. by destruct (reachable_distinct X cfg m st w Hr) as (? & ? & _).
Qed.

Lemma sample_reachable : reachable sampleX sample_cfg sample_mgr sample_st sample_w.
Proof.
  eapply (reach_persist _ _ _ _ _ sample_request (mkDump "d3" 0)
            (list_ascii_of_string "hello") None);
    [eapply (reach_persist _ _ _ _ _ sample_request (mkDump "d2" 0)
               (list_ascii_of_string "hello") None);
     [eapply (reach_persist _ _ _ _ _ sample_request (mkDump "d1" 0)
                (list_ascii_of_string "hello") None);
      [eapply (reach_new _ _ _ (ReadDirOk []) true id world0);
       [intros l; reflexivity|vm_compute; reflexivity]
      |vm_compute; reflexivity]
     |vm_compute; reflexivity]
    |vm_compute; reflexivity].
Qed.

Lemma X1_one_entry_per_dump_witness :
  NoDup ["d3"; "d2"] /\ NoDup [2%nat; 1%nat].
Proof.
  exact (X1_one_entry_per_dump sampleX sample_cfg sample_mgr sample_st sample_w
           sample_reachable).
Defined.

(** ** Names, extensions and suffixes *)

Lemma list_ascii_of_string_app s t :
  list_ascii_of_string (s ++ t)
    = (list_ascii_of_string s ++ list_ascii_of_string t)%list.
Proof. induction s as [|c s IH]; simpl; [done|]. by rewrite IH. Qed.

Lemma has_prefix_app p s : has_prefix p (p ++ s) = Some s.
Proof.
  induction p as [|a p IH]; simpl; [done|]. by rewrite Ascii.eqb_refl.
Qed.

Lemma strings_TrimSuffix_app s suffix :
  strings_TrimSuffix (s ++ suffix) suffix = s.
Proof.
  unfold strings_TrimSuffix.
  rewrite list_ascii_of_string_app, rev_app_distr, has_prefix_app.
  by rewrite rev_involutive, string_of_list_ascii_of_string.
Qed.

Lemma ext_rev_plain e r acc :
  forallb (fun c => negb (is_sep c) && negb (is_dot c)) e = true ->
  ext_rev (e ++ "."%char :: r) acc = ("."%char :: rev e ++ acc)%list.
Proof.
  revert acc. induction e as [|c e IH]; intros acc He; simpl in *.
  - done.
  - apply andb_prop in He as [Hc He]. apply andb_prop in Hc as [Hs Hd].
    destruct (is_sep c); [done|]. destruct (is_dot c); [done|].
    rewrite IH by done. by rewrite <- app_assoc.
Qed.

Lemma forallb_rev {A} (f : A -> bool) l : forallb f (rev l) = forallb f l.
Proof.
  induction l as [|x l IH]; simpl; [done|].
  rewrite forallb_app, IH. simpl. rewrite andb_true_r. apply andb_comm.
Qed.

Lemma filepath_Ext_app b e :
  plain e = true ->
  filepath_Ext (b ++ String "." e) = String "." e.
Proof.
  intros He. unfold filepath_Ext.
  rewrite list_ascii_of_string_app. simpl list_ascii_of_string.
  rewrite rev_app_distr. simpl rev. rewrite <- app_assoc. simpl.
  rewrite ext_rev_plain by (by rewrite forallb_rev).
  rewrite rev_involutive, app_nil_r. simpl.
  by rewrite string_of_list_ascii_of_string.
Qed.

Lemma last_elem_rev_no_sep r acc :
  forallb (fun c => negb (is_sep c)) r = true ->
  last_elem_rev r acc = (rev r ++ acc)%list.
Proof.
  revert acc. induction r as [|c r IH]; intros acc Hr; simpl in *; [done|].
  apply andb_prop in Hr as [Hc Hr]. destruct (is_sep c); [done|].
  rewrite IH by done. by rewrite <- app_assoc.
Qed.

Lemma filepath_Base_no_sep s :
  s <> "" -> no_sep s = true -> filepath_Base s = s.
Proof.
  intros Hne Hs. unfold filepath_Base, no_sep in *.
  destruct s as [|c s]; [done|].
  assert (forallb (fun c => negb (is_sep c))
            (rev (list_ascii_of_string (String c s))) = true) as Hr
    by (by rewrite forallb_rev).
  assert (drop_seps (rev (list_ascii_of_string (String c s)))
          = rev (list_ascii_of_string (String c s))) as ->.
  { destruct (rev _) as [|x r]; [done|]. simpl in *.
    apply andb_prop in Hr as [Hx _]. by destruct (is_sep x). }
  rewrite last_elem_rev_no_sep by done.
  rewrite rev_involutive, app_nil_r. simpl.
  by rewrite string_of_list_ascii_of_string.
Qed.

Lemma no_sep_app s t : no_sep (s ++ t) = no_sep s && no_sep t.
Proof. unfold no_sep. by rewrite list_ascii_of_string_app, forallb_app. Qed.

Lemma plain_no_sep s : plain s = true -> no_sep s = true.
Proof.
  unfold plain, no_sep. induction (list_ascii_of_string s) as [|c l IH];
    simpl; [done|].
  intros H. apply andb_prop in H as [Hc Hl]. apply andb_prop in Hc as [-> _].
  by apply IH.
Qed.

Lemma append_not_empty s c t : (s ++ String c t)%string <> "".
Proof. by destruct s. Qed.

Lemma string_append_assoc (s t u : string) :
  ((s ++ t) ++ u = s ++ (t ++ u))%string.
Proof.
  induction s as [|c s IH]; [done|].
  change (String c ((s ++ t) ++ u) = String c (s ++ (t ++ u)))%string.
  by rewrite IH.
Qed.

(** A file [b.e] and its compressed form [b.e.gz] are files of the dump
    [b]. *)
Lemma dumpNameOf_format b e :
  no_sep b = true -> plain e = true -> e <> "gz" ->
  dumpNameOf (b ++ String "." e) = b.
Proof.
  intros Hb He Hgz. unfold dumpNameOf.
  rewrite filepath_Ext_app by done.
  rewrite filepath_Base_no_sep.
  - rewrite strings_TrimSuffix_app.
    destruct (String.eqb_spec (String "." e) ".gz") as [[= ->]|_]; done.
  - apply append_not_empty.
  - rewrite no_sep_app, Hb. simpl.
    change (no_sep (String "." e)) with (negb (is_sep ".") && no_sep e).
    by rewrite (plain_no_sep e He).
Qed.

Lemma dumpNameOf_gz b e :
  no_sep b = true -> plain e = true ->
  dumpNameOf (b ++ String "." e ++ ".gz") = b.
Proof.
  intros Hb He. unfold dumpNameOf.
  rewrite <- (string_append_assoc b (String "." e) (String "." "gz")).
  rewrite filepath_Ext_app by done. simpl String.eqb.
  rewrite filepath_Base_no_sep.
  - rewrite strings_TrimSuffix_app, filepath_Ext_app by done.
    by rewrite strings_TrimSuffix_app.
  - apply append_not_empty.
  - rewrite !no_sep_app, Hb. simpl.
    change (no_sep (String "." e)) with (negb (is_sep ".") && no_sep e).
    rewrite (plain_no_sep e He). reflexivity.
Qed.

(** ** What the merge loop builds *)

Section Merge.
Variable X : Externals.
Variable cfg : Config.

(** One round of the merge loop, on a map that earlier rounds built. *)
Lemma merge_file_spec dumps w f :
  merged dumps ->
  (merge_file X cfg (dumps, w) f).1 =
    if managed X f
    then let k := dumpNameOf (entryName f) in
         <[k := mkDumpFiles k
                  (filesOf dumps k
                   ++ [filepath_Join X (ActivityDumpLocalStorageDirectory cfg)
                                     (entryName f)])%list
                  Time.zero]> dumps
    else dumps.
Proof.
  intros Hm. unfold merge_file, managed.
  destruct (_ && negb _); simpl negb; cbn [andb]; [done|].
  destruct (entryInfo f) as [modTime|]; [|done].
  rewrite bool_decide_eq_true_2 by eauto.
  cbv zeta. cbn [fst]. fold (dumpNameOf (entryName f)).
  set (k := dumpNameOf (entryName f)).
  unfold filesOf.
  destruct (dumps !! k) as [ad|] eqn:Hk; simpl.
  - destruct (Hm k ad Hk) as (-> & _ & ->). reflexivity.
  - reflexivity.
Qed.

Lemma filesOf_insert dumps k ad k' :
  filesOf (<[k := ad]> dumps) k' =
    if decide (k = k') then Files ad else filesOf dumps k'.
Proof.
  unfold filesOf. destruct (decide (k = k')) as [->|Hne].
  - by rewrite lookup_insert_eq.
  - by rewrite lookup_insert_ne.
Qed.

(** X2: the merge loop groups the listed files by derived dump name.  For
    every name, the file list of its dump is made of the managed files (known
    extension or [.gz], readable [Info()]) that derive this name, joined to
    the directory, in listing order; and a dump exists exactly for the names
    that some managed file derives.  Files that are not managed leave no
    trace in the map. *)
Theorem X2_merge_groups_by_name files w k :
  let dumps := (fold_left (merge_file X cfg) files (∅, w)).1 in
  let mine := filter (fun f => managed X f = true
                               /\ dumpNameOf (entryName f) = k) files in
  filesOf dumps k
    = (fun f => filepath_Join X (ActivityDumpLocalStorageDirectory cfg)
                              (entryName f)) <$> mine /\
  (is_Some (dumps !! k) <-> mine <> []) /\
  (forall ad, dumps !! k = Some ad -> Name ad = k).
Proof.
  cbv zeta.
  set (P := fun f => managed X f = true /\ dumpNameOf (entryName f) = k).
  set (J := fun f => filepath_Join X (ActivityDumpLocalStorageDirectory cfg)
                                   (entryName f)).
  assert (forall dumps0 w0, merged dumps0 ->
            let dumps := (fold_left (merge_file X cfg) files (dumps0, w0)).1 in
            filesOf dumps k = (filesOf dumps0 k ++ (J <$> filter P files))%list /\
            (is_Some (dumps !! k) <->
               is_Some (dumps0 !! k) \/ filter P files <> []) /\
            merged dumps) as Hgen.
  { induction files as [|f files IH]; intros dumps0 w0 Hm; cbn [fold_left].
    - simpl. rewrite app_nil_r. split; [done|]. split; [|done].
      split; [by left|]. by intros [?|?].
    - pose proof (merge_file_merged X cfg dumps0 w0 f Hm) as Hm'.
      pose proof (merge_file_spec dumps0 w0 f Hm) as Hspec.
      destruct (merge_file X cfg (dumps0, w0) f) as [dumps1 w1].
      cbn [fst] in Hm', Hspec.
      destruct (IH dumps1 w1 Hm') as (Hf & Hd & Hmm).
      cbv zeta. rewrite Hf, Hd. rewrite filter_cons.
      destruct (decide (P f)) as [[Hman Hk]|HnP].
      * rewrite Hman in Hspec. cbv zeta in Hspec. rewrite Hk in Hspec.
        assert (filesOf dumps1 k = (filesOf dumps0 k ++ [J f])%list /\
                is_Some (dumps1 !! k)) as [-> Hsome].
        { rewrite Hspec, filesOf_insert, decide_True by done.
          rewrite lookup_insert_eq. split; [done|eauto]. }
        split; [by rewrite fmap_cons, <- app_assoc|]. split; [|done].
        split; [intros _; by right|]. intros _. by left.
      * assert (filesOf dumps1 k = filesOf dumps0 k /\
                dumps1 !! k = dumps0 !! k) as [-> ->].
        { destruct (managed X f) eqn:Hman; [|by rewrite Hspec].
          cbv zeta in Hspec. rewrite Hspec, filesOf_insert.
          assert (dumpNameOf (entryName f) <> k) as Hk
            by (intros Hk; by apply HnP).
          rewrite decide_False by done. by rewrite lookup_insert_ne. }
        done. }
  destruct (Hgen ∅ w merged_empty) as (Hf & Hd & Hm).
  split; [exact Hf|]. split.
  - rewrite Hd, lookup_empty. split.
    + intros [[? [=]]|?]; done.
    + by right.
  - intros ad Had. by destruct (Hm k ad Had) as (? & _).
Qed.
End Merge.

(** ** Seeding the index *)

Lemma seed_room m c w ad :
  simplelru.lookup_key (Name ad) (simplelru.evictList c) = None ->
  simplelru.Len c < simplelru.size c ->
  seed m (c, w) ad =
    (simplelru.mkLRU (simplelru.size c)
       ((Name ad, length (heap w)) :: simplelru.evictList c),
     set_heap (heap w ++ [Files ad]) w).
Proof.
  intros Hk Hlt. unfold seed, alloc.
  by rewrite LRUFacts.Add_room.
Qed.

(** Dumps with distinct new names, as long as there is room, pile up in the
    index in seeding order and evict nothing. *)
Lemma seed_fill m dumps : forall c w,
  NoDup (Name <$> dumps) ->
  (forall ad, ad ∈ dumps -> Name ad ∉ (simplelru.evictList c).*1) ->
  simplelru.Len c + Z.of_nat (length dumps) <= simplelru.size c ->
  let r := fold_left (seed m) dumps (c, w) in
  simplelru.evictList r.1 =
    (rev (zip (Name <$> dumps) (seq (length (heap w)) (length dumps)))
     ++ simplelru.evictList c)%list /\
  simplelru.size r.1 = simplelru.size c /\
  heap r.2 = (heap w ++ (Files <$> dumps))%list /\
  disk r.2 = disk w /\ trace r.2 = trace w /\
  deletedCount r.2 = deletedCount w /\ pinned r.2 = pinned w.
Proof.
  induction dumps as [|ad dumps IH]; intros c w Hnd Hnew Hroom;
    cbn [fold_left].
  - cbv zeta. simpl. by rewrite app_nil_r.
  - rewrite fmap_cons in Hnd. apply NoDup_cons in Hnd as [Hc Hnd].
    simpl length in Hroom.
    rewrite seed_room;
      [|apply lookup_key_not_elem, Hnew, list_elem_of_here|lia].
    edestruct (IH (simplelru.mkLRU (simplelru.size c)
                     ((Name ad, length (heap w)) :: simplelru.evictList c))
                  (set_heap (heap w ++ [Files ad]) w) Hnd)
      as (Hl & Hs & Hh & Hd & Ht & Hdc & Hp).
    { intros ad' Hin. simpl. apply not_elem_of_cons. split.
      - intros Heq. apply Hc. apply list_elem_of_fmap. exists ad'.
        split; [|done]. symmetry. exact Heq.
      - apply Hnew. by apply list_elem_of_further. }
    { unfold simplelru.Len in *. simpl. lia. }
    cbv zeta. rewrite Hl, Hs, Hh, Hd, Ht, Hdc, Hp. simpl.
    rewrite length_app, Nat.add_1_r. simpl.
    rewrite <- !app_assoc. done.
Qed.

Lemma fold_merge_trace X cfg files dumps w :
  exists evs,
    trace (fold_left (merge_file X cfg) files (dumps, w)).2
      = (trace w ++ evs)%list /\
    Forall (fun e => exists n, e = EvWarn n) evs.
Proof.
  revert dumps w. induction files as [|f files IH]; intros dumps w;
    cbn [fold_left].
  - exists []. by rewrite app_nil_r.
  - assert (exists evs1,
              trace (merge_file X cfg (dumps, w) f).2 = (trace w ++ evs1)%list /\
              Forall (fun e => exists n, e = EvWarn n) evs1) as (evs1 & Ht1 & H1).
    { unfold merge_file. destruct (_ && _).
      - exists []. by rewrite app_nil_r.
      - destruct (entryInfo f).
        + exists []. by rewrite app_nil_r.
        + exists [EvWarn (entryName f)]. split; [done|].
          constructor; [eauto|constructor]. }
    destruct (merge_file X cfg (dumps, w) f) as [dumps1 w1].
    destruct (IH dumps1 w1) as (evs & Ht & H).
    exists (evs1 ++ evs)%list. split.
    + rewrite Ht. simpl in Ht1. by rewrite Ht1, <- app_assoc.
    + by apply Forall_app.
Qed.

Lemma merged_slice_names rangeOrder dumps0 :
  (forall l, rangeOrder l ≡ₚ l) -> merged dumps0 ->
  Name <$> sort_Sort (newDumpFilesSlice rangeOrder dumps0)
    ≡ₚ (map_to_list dumps0).*1.
Proof.
  intros Hperm Hm. rewrite sort_Sort_perm. unfold newDumpFilesSlice.
  rewrite Hperm.
  assert (Forall (fun x => Name x.2 = x.1) (map_to_list dumps0)) as Hall.
  { apply Forall_forall. intros [k ad] Hin. apply elem_of_map_to_list in Hin.
    by destruct (Hm k ad Hin) as (? & _). }
  induction Hall as [|x l Hx _ IH]; [done|].
  rewrite !fmap_cons, Hx. by constructor.
Qed.

Lemma fold_merge_map_indep X cfg files dumps w w' :
  (fold_left (merge_file X cfg) files (dumps, w)).1
    = (fold_left (merge_file X cfg) files (dumps, w')).1.
Proof.
  revert dumps w w'. induction files as [|f files IH]; intros dumps w w';
    cbn [fold_left]; [done|].
  assert ((merge_file X cfg (dumps, w) f).1 = (merge_file X cfg (dumps, w') f).1)
    as Hstep.
  { unfold merge_file. destruct (_ && _); [done|].
    by destruct (entryInfo f). }
  destruct (merge_file X cfg (dumps, w) f) as [d1 w1].
  destruct (merge_file X cfg (dumps, w') f) as [d2 w2].
  simpl in Hstep. subst d2. apply IH.
Qed.

Lemma slice_values rangeOrder dumps0 ad :
  (forall l, rangeOrder l ≡ₚ l) -> merged dumps0 ->
  ad ∈ sort_Sort (newDumpFilesSlice rangeOrder dumps0) ->
  dumps0 !! Name ad = Some ad.
Proof.
  intros Hperm Hm Hin. rewrite sort_Sort_perm in Hin.
  unfold newDumpFilesSlice in Hin. rewrite Hperm in Hin.
  apply list_elem_of_fmap in Hin as ([k ad'] & -> & Hin).
  apply elem_of_map_to_list in Hin. simpl.
  by destruct (Hm k ad' Hin) as (-> & _).
Qed.

(** X3: when the output directory holds no more dumps than the capacity,
    reconciliation registers every one of them and evicts nothing: the names
    in the index are those of the merged dumps, each entry points to the
    file list of its dump, the counter is zero, no file is removed and the
    only events are the warnings of the merge loop. *)
Theorem X3_reconciliation_within_capacity X cfg m files mkdirAll rangeOrder w st w' :
  (forall l, rangeOrder l ≡ₚ l) ->
  let dumps0 := (fold_left (merge_file X cfg) files (∅, w)).1 in
  Z.of_nat (size dumps0) <= ActivityDumpLocalStorageMaxDumpsCount cfg ->
  ActivityDumpLocalStorageDirectory cfg <> "" ->
  NewActivityDumpLocalStorage X cfg m (ReadDirOk files) mkdirAll rangeOrder w
    = inr (st, w') ->
  (simplelru.evictList (localDumps st)).*1 ≡ₚ (map_to_list dumps0).*1 /\
  (forall k p, (k, p) ∈ simplelru.evictList (localDumps st) ->
     heap w' !! p = Some (filesOf dumps0 k)) /\
  deletedCount w' = 0 /\
  disk w' = disk w /\
  (exists evs, trace w' = (trace w ++ evs)%list /\
               Forall (fun e => exists n, e = EvWarn n) evs).
Proof.
  intros Hperm dumps0 Hsize Hdir.
  unfold NewActivityDumpLocalStorage, simplelru.NewLRU.
  set (cap := ActivityDumpLocalStorageMaxDumpsCount cfg) in *.
  destruct (Z.leb_spec cap 0) as [|Hpos]; [done|].
  destruct (ActivityDumpLocalStorageDirectory cfg) as [|a dir] eqn:Hd; [done|].
  simpl String.length. cbn [Nat.ltb Nat.leb].
  pose proof (fold_merge_file X cfg files ∅ (set_deleted 0 w) merged_empty)
    as (Hm & Hh1 & Hdc1 & Hdisk1 & Hpin1).
  destruct (fold_merge_trace X cfg files ∅ (set_deleted 0 w)) as (evs & Ht1 & Hw).
  assert ((fold_left (merge_file X cfg) files (∅, set_deleted 0 w)).1 = dumps0)
    as Hmap by apply fold_merge_map_indep.
  destruct (fold_left (merge_file X cfg) files (∅, set_deleted 0 w))
    as [dumps1 w1].
  cbn [fst snd] in *. subst dumps1.
  set (dumps := sort_Sort (newDumpFilesSlice rangeOrder dumps0)).
  pose proof (merged_slice_names rangeOrder dumps0 Hperm Hm) as Hnames.
  fold dumps in Hnames.
  assert (length dumps = size dumps0) as Hlen.
  { rewrite <- (length_fmap Name), Hnames, length_fmap.
    apply length_map_to_list. }
  destruct (seed_fill m dumps (simplelru.mkLRU cap []) w1)
    as (Hl & Hs & Hh & Hdisk & Ht & Hdc & Hp).
  { rewrite Hnames. apply NoDup_fst_map_to_list. }
  { intros ad _. simpl. apply not_elem_of_nil. }
  { unfold simplelru.Len. simpl. lia. }
  destruct (fold_left (seed m) dumps _) as [c w2].
  cbn [fst snd] in *. intros [= <- <-]. cbn [localDumps].
  rewrite app_nil_r in Hl.
  assert ((simplelru.evictList c).*1 = rev (Name <$> dumps)) as Hkeys.
  { rewrite Hl, fmap_rev, fst_zip; [done|].
    by rewrite length_fmap, length_seq. }
  split; [by rewrite Hkeys, <- Permutation_rev|].
  split.
  { intros k p Hin. rewrite Hl in Hin. rewrite elem_of_rev in Hin.
    apply elem_of_lookup_zip_with in Hin as (i & k' & p' & [= -> ->] & Hk & Hpi).
    apply lookup_seq in Hpi as [-> Hi].
    rewrite list_lookup_fmap in Hk.
    destruct (dumps !! i) as [ad|] eqn:Had; [|done].
    injection Hk as <-.
    rewrite Hh, lookup_app_r by lia.
    replace (length (heap w1) + i - length (heap w1))%nat with i by lia.
    rewrite list_lookup_fmap, Had. simpl. f_equal.
    assert (dumps0 !! Name ad = Some ad) as Hlook.
    { apply (slice_values rangeOrder); [done|done|].
      by eapply list_elem_of_lookup_2. }
    unfold filesOf. by rewrite Hlook. }
  split; [by rewrite Hdc, Hdc1|].
  split; [by rewrite Hdisk, Hdisk1|].
  exists evs. split; [by rewrite Ht, Ht1|done].
Qed.

Lemma X2_merge_groups_by_name_witness :
  let dumps := (fold_left (merge_file sampleX sample_cfg) sample_listing
                          (∅, world0)).1 in
  filesOf dumps "a" = ["/d/a.json"; "/d/a.json.gz"] /\
  is_Some (dumps !! "a") /\
  filesOf dumps "c" = [] /\
  ~ is_Some (dumps !! "c").
Proof.
  destruct (X2_merge_groups_by_name sampleX sample_cfg sample_listing world0 "a")
    as (Ha & Hsa & _).
  destruct (X2_merge_groups_by_name sampleX sample_cfg sample_listing world0 "c")
    as (Hc & Hsc & _).
  cbv zeta. split; [exact Ha|]. split.
  - apply Hsa. vm_compute. discriminate.
  - split; [exact Hc|]. intros H. apply Hsc in H. apply H. reflexivity.
Defined.

Lemma X3_reconciliation_within_capacity_witness :
  exists st w',
    NewActivityDumpLocalStorage sampleX sample_cfg sample_mgr
      (ReadDirOk sample_listing) true id world0 = inr (st, w') /\
    deletedCount w' = 0 /\ disk w' = disk world0 /\
    (forall k p, (k, p) ∈ simplelru.evictList (localDumps st) ->
       heap w' !! p
         = Some (filesOf (fold_left (merge_file sampleX sample_cfg)
                            sample_listing (∅, world0)).1 k)).
Proof.
  eexists _, _. split; [vm_compute; reflexivity|].
  edestruct (X3_reconciliation_within_capacity sampleX sample_cfg sample_mgr
               sample_listing true id world0)
    as (_ & Hfiles & Hd & Hdisk & _).
  - intros l. reflexivity.
  - vm_compute. discriminate.
  - discriminate.
  - vm_compute. reflexivity.
  - split; [exact Hd|]. split; [exact Hdisk|exact Hfiles].
Defined.

(** X4: a file [b.e] of a known format [e] and its compressed form
    [b.e.gz], listed in this order, end up in one dump named [b] whose file
    list holds both paths, and in no other dump. *)
Theorem X4_format_and_gz_share_a_dump X cfg b e t1 t2 w :
  no_sep b = true -> plain e = true -> e <> "gz" ->
  ParseStorageFormat X (String "." e) <> None ->
  let n1 := (b ++ String "." e)%string in
  let n2 := (b ++ String "." e ++ ".gz")%string in
  let dir := ActivityDumpLocalStorageDirectory cfg in
  let dumps := (fold_left (merge_file X cfg)
                  [mkDirEntry n1 (Some t1); mkDirEntry n2 (Some t2)] (∅, w)).1 in
  (exists ad, dumps !! b = Some ad /\ Name ad = b /\
              Files ad = [filepath_Join X dir n1; filepath_Join X dir n2]) /\
  (forall k, k <> b -> dumps !! k = None).
Proof.
  intros Hb He Hgz Hfmt. cbv zeta. cbn [fold_left].
  set (f1 := mkDirEntry (b ++ String "." e) (Some t1)).
  set (f2 := mkDirEntry (b ++ String "." e ++ ".gz") (Some t2)).
  assert (managed X f1 = true) as Hm1.
  { unfold managed, f1. cbn [entryName entryInfo].
    rewrite filepath_Ext_app by done.
    rewrite bool_decide_eq_false_2 by done.
    rewrite bool_decide_eq_true_2 by eauto. done. }
  assert (filepath_Ext (b ++ String "." e ++ ".gz") = ".gz") as Hext2.
  { rewrite <- (string_append_assoc b (String "." e) (String "." "gz")).
    by rewrite filepath_Ext_app. }
  assert (managed X f2 = true) as Hm2.
  { unfold managed, f2. cbn [entryName entryInfo]. rewrite Hext2.
    rewrite (bool_decide_eq_true_2 (is_Some (Some t2))) by eauto.
    simpl String.eqb. by rewrite andb_false_r. }
  pose proof (merge_file_spec X cfg ∅ w f1 merged_empty) as H1.
  pose proof (merge_file_merged X cfg ∅ w f1 merged_empty) as Hmg.
  destruct (merge_file X cfg (∅, w) f1) as [d1 w1]. cbn [fst] in H1, Hmg.
  pose proof (merge_file_spec X cfg d1 w1 f2 Hmg) as H2.
  destruct (merge_file X cfg (d1, w1) f2) as [d2 w2]. cbn [fst] in H2 |- *.
  rewrite Hm1 in H1. rewrite Hm2 in H2. cbv zeta in H1, H2.
  unfold f1 in H1. unfold f2 in H2. cbn [entryName] in H1, H2.
  rewrite dumpNameOf_format in H1 by done.
  rewrite dumpNameOf_gz in H2 by done.
  subst d2 d1. split.
  - eexists. rewrite lookup_insert_eq. split; [done|]. split; [done|].
    cbn [Files]. rewrite filesOf_insert, decide_True by done. cbn [Files].
    unfold filesOf. by rewrite lookup_empty.
  - intros k Hk. by rewrite !lookup_insert_ne, lookup_empty.
Qed.

Lemma X4_format_and_gz_share_a_dump_witness :
  let dumps := (fold_left (merge_file sampleX sample_cfg)
                  [mkDirEntry "dump.1.json" (Some 7);
                   mkDirEntry "dump.1.json.gz" (Some 9)] (∅, world0)).1 in
  (exists ad, dumps !! "dump.1" = Some ad /\ Name ad = "dump.1" /\
              Files ad = ["/d/dump.1.json"; "/d/dump.1.json.gz"]) /\
  (forall k, k <> "dump.1" -> dumps !! k = None).
Proof.
  apply (X4_format_and_gz_share_a_dump sampleX sample_cfg "dump.1" "json" 7 9
           world0); [reflexivity|reflexivity|discriminate|discriminate].
Defined.

(** X5: a file whose name ends in [.tmp], such as the temporary file that a
    failed [Persist] leaves behind, is ignored by the merge loop when [tmp]
    is no storage format: the listing with it and the listing without it
    give the same dumps and the same world. *)
Theorem X5_temporary_files_are_ignored X cfg files1 files2 n info acc :
  ParseStorageFormat X ".tmp" = None ->
  fold_left (merge_file X cfg)
            (files1 ++ mkDirEntry (n ++ ".tmp") info :: files2) acc
    = fold_left (merge_file X cfg) (files1 ++ files2) acc.
Proof.
  intros Htmp. rewrite !fold_left_app. cbn [fold_left]. f_equal.
  destruct (fold_left (merge_file X cfg) files1 acc) as [dumps w].
  unfold merge_file. cbn [entryName].
  rewrite (filepath_Ext_app n "tmp") by reflexivity.
  rewrite bool_decide_eq_true_2 by done. reflexivity.
Qed.

Lemma X5_temporary_files_are_ignored_witness :
  fold_left (merge_file sampleX sample_cfg)
            ([mkDirEntry "a.json" (Some 100)]
             ++ mkDirEntry ("b.json" ++ ".tmp") (Some 400)
             :: [mkDirEntry "b.json" (Some 300)]) (∅, world0)
  = fold_left (merge_file sampleX sample_cfg)
              ([mkDirEntry "a.json" (Some 100)]
               ++ [mkDirEntry "b.json" (Some 300)]) (∅, world0).
Proof.
  apply (X5_temporary_files_are_ignored sampleX sample_cfg). reflexivity.
Defined.

(** ** How construction fails, and the empty start *)

(** X6: construction fails exactly in three cases, tested in this order: a
    capacity that is not positive (whatever the directory), and, when an
    output directory is configured, a listing error other than "not exist",
    or a missing directory that cannot be created. *)
Theorem X6_constructor_errors X cfg m readDir mkdirAll rangeOrder w :
  let cap := ActivityDumpLocalStorageMaxDumpsCount cfg in
  let dir := ActivityDumpLocalStorageDirectory cfg in
  let r := NewActivityDumpLocalStorage X cfg m readDir mkdirAll rangeOrder w in
  (cap <= 0 -> r = inl ErrNewLRU) /\
  (0 < cap -> dir <> "" -> readDir = ReadDirError -> r = inl ErrReadDir) /\
  (0 < cap -> dir <> "" -> readDir = ReadDirNotExist -> mkdirAll = false ->
     r = inl ErrMkdirAll) /\
  ((exists e, r = inl e) ->
     cap <= 0 \/
     (dir <> "" /\ (readDir = ReadDirError \/
                    (readDir = ReadDirNotExist /\ mkdirAll = false)))).
Proof.
  cbv zeta. unfold NewActivityDumpLocalStorage, simplelru.NewLRU.
  destruct (Z.leb_spec (ActivityDumpLocalStorageMaxDumpsCount cfg) 0) as [Hle|Hpos].
  { split; [done|]. split; [lia|]. split; [lia|]. intros _. by left. }
  split; [lia|].
  destruct (ActivityDumpLocalStorageDirectory cfg) as [|a dir] eqn:Hd.
  { simpl. split; [done|]. split; [done|]. by intros [e [=]]. }
  simpl String.length. cbn [Nat.ltb Nat.leb].
  split; [by intros _ _ ->|]. split; [by intros _ _ -> ->|].
  intros [e He]. right. split; [done|].
  destruct readDir as [files| |]; [|destruct mkdirAll; [|by right]|by left].
  - destruct (fold_left (merge_file X cfg) files _) as [d1 w1].
    by destruct (fold_left (seed m) _ _) as [c w2].
  - destruct (fold_left (merge_file X cfg) [] _) as [d1 w1].
    by destruct (fold_left (seed m) _ _) as [c w2].
Qed.

Lemma X6_constructor_errors_witness :
  NewActivityDumpLocalStorage sampleX (mkConfig 0 "/d") sample_mgr
    ReadDirError false id world0 = inl ErrNewLRU /\
  NewActivityDumpLocalStorage sampleX sample_cfg sample_mgr
    ReadDirError true id world0 = inl ErrReadDir /\
  NewActivityDumpLocalStorage sampleX sample_cfg sample_mgr
    ReadDirNotExist false id world0 = inl ErrMkdirAll.
Proof.
  destruct (X6_constructor_errors sampleX (mkConfig 0 "/d") sample_mgr
              ReadDirError false id world0) as (H0 & _).
  destruct (X6_constructor_errors sampleX sample_cfg sample_mgr
              ReadDirError true id world0) as (_ & H1 & _).
  destruct (X6_constructor_errors sampleX sample_cfg sample_mgr
              ReadDirNotExist false id world0) as (_ & _ & H2 & _).
  split; [apply H0; simpl; lia|].
  split; [apply H1; [simpl; lia|discriminate|reflexivity]|].
  apply H2; [simpl; lia|discriminate|reflexivity|reflexivity].
Defined.

(** X7: with a positive capacity, when no output directory is configured
    (the listing is then not consulted at all), or when the directory does
    not exist yet and can be created, the storage starts with an empty index
    and the counter at zero; no file list is allocated and nothing is logged.
    When no directory is configured, nothing else in the world changes. *)
Theorem X7_empty_start X cfg m readDir mkdirAll rangeOrder w :
  (forall l, rangeOrder l ≡ₚ l) ->
  0 < ActivityDumpLocalStorageMaxDumpsCount cfg ->
  ActivityDumpLocalStorageDirectory cfg = ""
  \/ (readDir = ReadDirNotExist /\ mkdirAll = true) ->
  exists w',
    NewActivityDumpLocalStorage X cfg m readDir mkdirAll rangeOrder w
      = inr (mkStorage
               (simplelru.mkLRU (ActivityDumpLocalStorageMaxDumpsCount cfg) []),
             w') /\
    deletedCount w' = 0 /\ heap w' = heap w /\ trace w' = trace w /\
    (ActivityDumpLocalStorageDirectory cfg = "" -> w' = set_deleted 0 w).
Proof.
  intros Hperm Hpos Hcase. exists (set_deleted 0 w).
  split; [|done].
  unfold NewActivityDumpLocalStorage, simplelru.NewLRU.
  destruct (Z.leb_spec (ActivityDumpLocalStorageMaxDumpsCount cfg) 0); [lia|].
  destruct Hcase as [->|[-> ->]]; [done|].
  destruct (0 <? String.length _)%nat; [|done].
  cbn [fold_left]. unfold newDumpFilesSlice.
  rewrite map_to_list_empty, fmap_nil.
  pose proof (Hperm []) as Hnil. apply Permutation_nil_r in Hnil.
  rewrite Hnil. reflexivity.
Qed.

Lemma X7_empty_start_witness :
  (exists w',
     NewActivityDumpLocalStorage sampleX sample_cfg sample_mgr
       ReadDirNotExist true id world0 = inr (sample_store 2, w') /\
     deletedCount w' = 0 /\ trace w' = []) /\
  (exists w',
     NewActivityDumpLocalStorage sampleX (mkConfig 2 "") sample_mgr
       (ReadDirOk sample_listing) false id world0 = inr (sample_store 2, w') /\
     w' = set_deleted 0 world0).
Proof.
  split.
  - destruct (X7_empty_start sampleX sample_cfg sample_mgr ReadDirNotExist true
                id world0) as (w' & Hnew & Hd & _ & Ht & _);
      [intros l; reflexivity|simpl; lia|right; split; reflexivity|].
    exists w'. split; [exact Hnew|]. split; [exact Hd|exact Ht].
  - destruct (X7_empty_start sampleX (mkConfig 2 "") sample_mgr
                (ReadDirOk sample_listing) false id world0)
      as (w' & Hnew & _ & _ & _ & Hsame);
      [intros l; reflexivity|simpl; lia|left; reflexivity|].
    exists w'. split; [exact Hnew|]. apply Hsame. reflexivity.
Defined.

(** ** What [Persist] does to the disk *)

Lemma string_length_app (s t : string) :
  String.length (s ++ t) = (String.length s + String.length t)%nat.
Proof.
  induction s as [|c s IH]; [done|].
  change (S (String.length (s ++ t)) = S (String.length s + String.length t)).
  by rewrite IH.
Qed.

Lemma tmp_path_differs (s : string) : (s ++ ".tmp")%string <> s.
Proof.
  intros H. apply (f_equal String.length) in H.
  rewrite string_length_app in H. simpl in H. lia.
Qed.

(** The file operations touch the temporary path and, on success, the
    output path; nothing else. *)
Lemma write_file_disk io outputPath raw w :
  let r := write_file io outputPath raw w in
  let tmp := (outputPath ++ ".tmp")%string in
  (forall q, q <> outputPath -> q <> tmp -> disk r.2 !! q = disk w !! q) /\
  match r.1 with
  | None => io = None /\ disk r.2 !! outputPath = Some raw /\ disk r.2 !! tmp = None
  | Some e =>
      (exists f, io = Some f /\ e = fault_error f) /\
      disk r.2 !! outputPath = disk w !! outputPath /\
      (e = ErrCreate -> r.2 = w) /\
      (e <> ErrCreate -> is_Some (disk r.2 !! tmp))
  end.
Proof.
  cbv zeta. pose proof (tmp_path_differs outputPath) as Hne.
  unfold write_file.
  destruct io as [[]|]; cbn [fst snd set_disk disk]; (split;
    [intros q Hq Hq';
     rewrite ?lookup_insert_ne, ?lookup_delete_ne, ?lookup_insert_ne by done;
     done|]).
  - split; [by eexists|]. split; [done|]. split; [done|]. by intros [].
  - split; [by eexists|]. rewrite lookup_insert_ne by done.
    split; [done|]. split; [done|]. intros _. rewrite lookup_insert_eq. eauto.
  - split; [by eexists|]. rewrite lookup_insert_ne by done.
    split; [done|]. split; [done|]. intros _. rewrite lookup_insert_eq. eauto.
  - split; [by eexists|]. rewrite !lookup_insert_ne by done.
    split; [done|]. split; [done|]. intros _. rewrite lookup_insert_eq. eauto.
  - split; [by eexists|]. rewrite !lookup_insert_ne by done.
    split; [done|]. split; [done|]. intros _. rewrite lookup_insert_eq. eauto.
  - split; [done|]. rewrite lookup_insert_eq. split; [done|].
    rewrite lookup_insert_ne by done. apply lookup_delete_eq.
Qed.

(** X8: a [Persist] that fails never alters the file at the output path, nor
    any file other than its temporary file.  When compression fails the
    world is untouched; when the creation of the temporary file fails, the
    temporary path is as before, so that no file is created or altered; when
    a later step fails the temporary file is left on disk. *)
Theorem X8_failed_persist_keeps_the_final_file X m st request ad raw io w e ad' st' w' :
  Persist X m st request ad raw io w = (Some e, ad', st', w') ->
  let outputPath := GetOutputPath X request (MetadataName ad) in
  let tmp := (outputPath ++ ".tmp")%string in
  disk w' !! outputPath = disk w !! outputPath /\
  (forall q, q <> tmp -> disk w' !! q = disk w !! q) /\
  (e = ErrCompress -> w' = w) /\
  (e = ErrCreate -> disk w' !! tmp = disk w !! tmp) /\
  (e <> ErrCompress -> e <> ErrCreate -> is_Some (disk w' !! tmp)).
Proof.
  cbv zeta. unfold Persist.
  destruct (if Compression request then _ else _) as [raw'|].
  2:{ intros [= <- <- <- <-]. repeat split; try done. }
  pose proof (write_file_disk io (GetOutputPath X request (MetadataName ad))
                raw' w) as (Hother & Hres).
  destruct (write_file io _ raw' w) as [[e1|] w1]; cbn [fst snd] in *.
  - intros [= <- <- <- <-].
    destruct Hres as ((f & -> & ->) & Hout & Hcreate & Htmp).
    split; [done|]. split.
    { intros q Hq.
      destruct (decide (q = GetOutputPath X request (MetadataName ad)))
        as [->|Hq']; [done|]. by apply Hother. }
    split; [by destruct f|].
    split; [intros Hc; by rewrite (Hcreate Hc)|].
    intros _ Hc. by apply Htmp.
  - destruct (simplelru.Get _ _) as [c [p|]]; [done|].
    destruct (alloc _ w1) as [p w2].
    by destruct (simplelru.Add _ _ _ _ _) as [[c' w3] b].
Qed.

Lemma X8_failed_persist_keeps_the_final_file_witness :
  let w := mkWorld [] (<["/d/d1.json" := list_ascii_of_string "old"]> ∅) ∅ 0 [] in
  let r := Persist sampleX sample_mgr (sample_store 2) sample_request
             (mkDump "d1" 0) (list_ascii_of_string "new") (Some FaultRename) w in
  r.1.1.1 = Some ErrRename /\
  disk r.2 !! "/d/d1.json" = Some (list_ascii_of_string "old") /\
  is_Some (disk r.2 !! "/d/d1.json.tmp").
Proof.
  pose (w := mkWorld [] (<["/d/d1.json" := list_ascii_of_string "old"]> ∅) ∅ 0 []).
  pose (r := Persist sampleX sample_mgr (sample_store 2) sample_request
             (mkDump "d1" 0) (list_ascii_of_string "new") (Some FaultRename) w).
  destruct (X8_failed_persist_keeps_the_final_file sampleX sample_mgr
              (sample_store 2) sample_request (mkDump "d1" 0)
              (list_ascii_of_string "new") (Some FaultRename) w
              ErrRename r.1.1.2 r.1.2 r.2 eq_refl) as (Hout & _ & _ & _ & Htmp).
  split; [reflexivity|]. split.
  - exact (eq_trans Hout eq_refl).
  - apply Htmp; discriminate.
Defined.

(** A file of which no successful removal is recorded is still there. *)
Lemma remove_all_kept files q : forall w evs,
  trace (remove_all files w) = (trace w ++ evs)%list ->
  EvRemove q true ∉ evs ->
  disk (remove_all files w) !! q = disk w !! q.
Proof.
  induction files as [|f files IH]; intros w evs Ht Hq; simpl in *; [done|].
  destruct (os_Remove f w) as [ok w1] eqn:E.
  pose proof (os_Remove_fields f w) as (_ & _ & _ & Ht1).
  pose proof (os_Remove_disk f w q) as Hd1.
  rewrite E in Ht1, Hd1. cbn [fst snd] in Ht1, Hd1.
  set (w1' := if ok then w1 else emit (EvWarn f) w1) in *.
  assert (disk w1' = disk w1) as Hdw by (unfold w1'; by destruct ok).
  destruct (remove_all_trace files w1') as (outs & _ & Ht2).
  assert (exists pre, trace w1' = (trace w ++ EvRemove f ok :: pre)%list)
    as (pre & Hpre).
  { unfold w1'. destruct ok.
    - exists []. by rewrite Ht1.
    - exists [EvWarn f]. simpl. by rewrite Ht1, <- app_assoc. }
  rewrite Ht2, Hpre, <- app_assoc in Ht. apply app_inv_head in Ht. subst evs.
  rewrite (IH w1' (removal_events files outs)); [| done |].
  - rewrite Hdw, Hd1.
    destruct (decide (q = f)) as [->|]; [|done].
    destruct (can_remove w f) eqn:Hcan; [|done].
    exfalso. apply Hq. unfold os_Remove in E. rewrite Hcan in E.
    injection E as <- _. apply list_elem_of_here.
  - intros Hin. apply Hq. apply list_elem_of_further.
    apply elem_of_app. by right.
Qed.

Lemma onEvict_kept m k p w q evs :
  trace (onEvict m k p w) = (trace w ++ evs)%list ->
  EvRemove q true ∉ evs ->
  disk (onEvict m k p w) !! q = disk w !! q.
Proof.
  intros Ht Hq. unfold onEvict in *.
  destruct (length (deref w p) =? 0)%nat; [done|].
  set (w1 := match securityProfileManager m with
             | Some _ => emit (EvCleanup (deref w p)) w
             | None => w
             end) in *.
  assert (disk w1 = disk w /\
          exists pre, trace w1 = (trace w ++ pre)%list) as (Hd & pre & Hpre).
  { unfold w1. destruct (securityProfileManager m); simpl.
    - split; [done|]. eauto.
    - split; [done|]. exists []. by rewrite app_nil_r. }
  destruct (remove_all_trace (deref w p) w1) as (outs & _ & Ht2).
  cbn [emit set_deleted disk trace] in *.
  rewrite Ht2, Hpre, <- !app_assoc in Ht. apply app_inv_head in Ht. subst evs.
  rewrite (remove_all_kept _ q w1 _ Ht2), Hd; [done|].
  intros Hin. apply Hq. apply elem_of_app. right. apply elem_of_app. by left.
Qed.

Lemma onEvict_absent m k p w q :
  disk w !! q = None -> disk (onEvict m k p w) !! q = None.
Proof.
  intros Hq. destruct (deref w p) as [|f files] eqn:Hfiles.
  - by rewrite onEvict_empty.
  - apply onEvict_nonempty; [by rewrite Hfiles|done].
Qed.

Lemma onEvict_trace_ext m k p w :
  exists evs, trace (onEvict m k p w) = (trace w ++ evs)%list.
Proof.
  destruct (deref w p) as [|f files] eqn:Hfiles.
  - rewrite onEvict_empty by done. exists []. by rewrite app_nil_r.
  - destruct (onEvict_nonempty m k p w) as (_ & _ & _ & (outs & _ & Ht) & _);
      [by rewrite Hfiles|]. eauto.
Qed.

(** What the index part of a successful [Persist] does to the world, the
    file being written. *)
Lemma Add_disk m c k p w :
  let w' := (simplelru.Add (onEvict m) c k p w).1.2 in
  (forall q, disk w !! q = None -> disk w' !! q = None) /\
  exists evs,
    trace w' = (trace w ++ evs)%list /\
    (forall q, EvRemove q true ∉ evs -> disk w' !! q = disk w !! q).
Proof.
  cbv zeta.
  destruct (LRUFacts.Add_cases (onEvict m) c k p w)
    as [(v0 & _ & ->)|[(_ & _ & ->)|(l & k0 & p0 & _ & _ & _ & ->)]];
    cbn [fst snd].
  - split; [done|]. exists []. by rewrite app_nil_r.
  - split; [done|]. exists []. by rewrite app_nil_r.
  - split; [intros q; apply onEvict_absent|].
    destruct (onEvict_trace_ext m k0 p0 w) as (evs & Ht).
    exists evs. split; [done|]. intros q Hq. by apply (onEvict_kept _ _ _ _ _ evs).
Qed.

(** X9: a successful [Persist] met no failing file operation; it records as
    size the length of the bytes it wrote (the compressed ones under
    compression), leaves no temporary file, and the output path holds exactly
    those bytes when the call returns, unless the eviction that this very
    call triggered removed that path. *)
Theorem X9_successful_persist_writes_the_file X m st request ad raw io w ad' st' w' :
  Persist X m st request ad raw io w = (None, ad', st', w') ->
  let outputPath := GetOutputPath X request (MetadataName ad) in
  exists content evs,
    (if Compression request
     then compressWithGZip X (filepath_Base outputPath) raw
     else Some raw) = Some content /\
    io = None /\
    ad' = mkDump (MetadataName ad) (Uint64.wrap (Z.of_nat (length content))) /\
    disk w' !! (outputPath ++ ".tmp")%string = None /\
    trace w' = (trace w ++ evs)%list /\
    (EvRemove outputPath true ∉ evs -> disk w' !! outputPath = Some content).
Proof.
  cbv zeta. unfold Persist.
  destruct (if Compression request then _ else _) as [content|]; [|done].
  pose proof (write_file_disk io (GetOutputPath X request (MetadataName ad))
                content w) as (_ & Hres).
  pose proof (write_file_fields io (GetOutputPath X request (MetadataName ad))
                content w) as (_ & _ & _ & Ht).
  destruct (write_file io _ content w) as [[e1|] w1]; cbn [fst snd] in *;
    [done|].
  destruct Hres as (-> & Hout & Htmp). cbn [MetadataName].
  destruct (simplelru.Get _ _) as [c [p|]].
  - intros [= <- <- <-]. exists content, [].
    rewrite app_nil_r. cbn [store set_heap disk trace]. done.
  - unfold alloc.
    set (w2 := set_heap _ w1).
    pose proof (Add_disk m c (MetadataName ad) (length (heap w1)) w2)
      as (Habs & evs & Hte & Hkept).
    destruct (simplelru.Add _ _ _ _ _) as [[c' w3] b]. cbn [fst snd] in *.
    intros [= <- <- <-]. exists content, evs.
    split; [done|]. split; [done|]. split; [done|].
    split; [apply Habs; exact Htmp|].
    split; [rewrite Hte; unfold w2; cbn [set_heap trace]; by rewrite Ht|].
    intros Hq. rewrite Hkept by done. exact Hout.
Qed.

Lemma X9_successful_persist_writes_the_file_witness :
  let r := Persist sampleX sample_mgr sample_st (mkRequest "/d" true 0)
             (mkDump "d4" 0) (list_ascii_of_string "hello") None sample_w in
  r.1.1.1 = None /\
  MetadataSize r.1.1.2 = 6 /\
  disk r.2 !! "/d/d4.json.gz" = Some (list_ascii_of_string "zhello") /\
  disk r.2 !! "/d/d4.json.gz.tmp" = None.
Proof.
  pose (r := Persist sampleX sample_mgr sample_st (mkRequest "/d" true 0)
             (mkDump "d4" 0) (list_ascii_of_string "hello") None sample_w).
  destruct (X9_successful_persist_writes_the_file sampleX sample_mgr sample_st
              (mkRequest "/d" true 0) (mkDump "d4" 0)
              (list_ascii_of_string "hello") None sample_w r.1.1.2 r.1.2 r.2
              eq_refl) as (content & evs & Hc & _ & Had & Htmp & Ht & Hfile).
  injection Hc as <-.
  split; [reflexivity|]. split; [reflexivity|]. split; [|exact Htmp].
  apply Hfile. intros Hin.
  assert (evs = [EvCleanup ["/d/d2.json"]; EvRemove "/d/d2.json" true;
                 EvDeletedAdd]) as ->.
  { apply (app_inv_head (trace sample_w)). rewrite <- Ht. reflexivity. }
  repeat (apply elem_of_cons in Hin as [Hin|Hin]; [discriminate|]).
  by apply elem_of_nil in Hin.
Defined.

Lemma onEvict_other m k p w q :
  q ∉ deref w p -> disk (onEvict m k p w) !! q = disk w !! q.
Proof.
  intros Hq. destruct (deref w p) as [|f files] eqn:Hfiles.
  - by rewrite onEvict_empty.
  - apply onEvict_nonempty; by rewrite Hfiles.
Qed.

(** X10: whatever its outcome, [Persist] leaves alone every file that is
    neither its output path, nor its temporary path, nor a file registered in
    the index. *)
Theorem X10_persist_footprint X m st request ad raw io w q :
  let outputPath := GetOutputPath X request (MetadataName ad) in
  q <> outputPath -> q <> (outputPath ++ ".tmp")%string ->
  (forall k p, (k, p) ∈ simplelru.evictList (localDumps st) -> q ∉ deref w p) ->
  disk (Persist X m st request ad raw io w).2 !! q = disk w !! q.
Proof.
  cbv zeta. intros Hq Hq' Hreg. unfold Persist.
  destruct (if Compression request then _ else _) as [content|]; [|done].
  pose proof (write_file_disk io (GetOutputPath X request (MetadataName ad))
                content w) as (Hother & _).
  pose proof (write_file_fields io (GetOutputPath X request (MetadataName ad))
                content w) as (Hh & _).
  specialize (Hother q Hq Hq').
  destruct (write_file io _ content w) as [[e1|] w1]; cbn [fst snd] in *;
    [done|].
  cbn [MetadataName].
  destruct (simplelru.lookup_key (MetadataName ad)
              (simplelru.evictList (localDumps st))) as [p|] eqn:Hk.
  - rewrite (LRUFacts.Get_hit _ _ _ Hk). done.
  - rewrite (LRUFacts.Get_miss _ _ Hk). unfold alloc.
    set (w2 := set_heap _ w1).
    destruct (LRUFacts.Add_cases (onEvict m) (localDumps st) (MetadataName ad)
                (length (heap w1)) w2)
      as [(v0 & _ & HA)|[(_ & _ & HA)|(l & k0 & p0 & _ & _ & Hl & HA)]];
      rewrite HA; cbn [snd]; try done.
    rewrite onEvict_other; [done|].
    assert ((k0, p0) ∈ (l ++ [(k0, p0)])%list) as Hin
      by (apply elem_of_app; right; apply list_elem_of_here).
    rewrite <- Hl in Hin.
    unfold deref, w2. cbn [set_heap heap].
    destruct (lt_eq_lt_dec p0 (length (heap w1))) as [[Hlt| ->]|Hgt].
    + rewrite lookup_app_l by done.
      apply elem_of_cons in Hin as [[= _ ->]|Hin]; [lia|].
      specialize (Hreg k0 p0 Hin). unfold deref in Hreg. by rewrite Hh.
    + rewrite list_lookup_middle by done. simpl.
      intros Hq2. apply list_elem_of_singleton in Hq2. done.
    + rewrite lookup_ge_None_2; [apply not_elem_of_nil|].
      rewrite length_app. simpl. lia.
Qed.

Lemma X10_persist_footprint_witness :
  disk (Persist sampleX sample_mgr sample_st sample_request (mkDump "d4" 0)
          (list_ascii_of_string "hello") None
          (set_files (<["/etc/passwd" := []]> (disk sample_w)) ∅ sample_w)).2
    !! "/etc/passwd" = Some [].
Proof.
  rewrite (X10_persist_footprint sampleX sample_mgr sample_st sample_request
             (mkDump "d4" 0) (list_ascii_of_string "hello") None
             (set_files (<["/etc/passwd" := []]> (disk sample_w)) ∅ sample_w)
             "/etc/passwd").
  - reflexivity.
  - discriminate.
  - discriminate.
  - intros k p Hin.
    apply elem_of_cons in Hin as [[= -> ->]|Hin];
      [|apply elem_of_cons in Hin as [[= -> ->]|Hin];
        [|by apply elem_of_nil in Hin]];
      intros H; apply list_elem_of_singleton in H; discriminate.
Defined.

Lemma Persist_registers X cfg m st w request ad raw io ad' st' w' :
  reachable X cfg m st w ->
  Persist X m st request ad raw io w = (None, ad', st', w') ->
  exists p rest,
    simplelru.evictList (localDumps st') = (MetadataName ad, p) :: rest /\
    last (deref w' p) = Some (GetOutputPath X request (MetadataName ad)).
Proof.
  intros Hr HP.
  destruct (reachable_invariants X cfg m st w Hr) as ((Hsz & Hpos & Hlen) & Hb & _).
  apply Persist_ok in HP as (raw' & w1 & Hw & HP).
  pose proof (write_file_fields io
    (GetOutputPath X request (MetadataName ad)) raw' w) as (Hh & _).
  rewrite Hw in Hh. simpl in Hh.
  destruct HP as [(p & Hk & -> & ->)|(Hk & HA)].
  - exists p, (simplelru.remove_key (MetadataName ad)
                 (simplelru.evictList (localDumps st))).
    split; [done|].
    destruct (Hb _ _ (LRUFacts.lookup_key_Some _ _ _ Hk)) as (files & Hf & _).
    unfold deref at 1, store. cbn [set_heap heap].
    rewrite list_lookup_insert_eq by (rewrite Hh; by eapply lookup_lt_Some).
    simpl. apply last_snoc.
  - unfold alloc in HA.
    set (w2 := set_heap _ w1) in HA. destruct HA as [-> ->].
    assert (forall w3, heap w3 = heap w2 ->
              last (deref w3 (length (heap w1)))
              = Some (GetOutputPath X request (MetadataName ad))) as Hderef.
    { intros w3 H3. unfold deref. rewrite H3. unfold w2. cbn [set_heap heap].
      by rewrite list_lookup_middle. }
    destruct (LRUFacts.Add_cases (onEvict m) (localDumps st) (MetadataName ad)
                (length (heap w1)) w2)
      as [(v0 & Hk' & HA)|[(_ & _ & HA)|(l & k0 & p0 & _ & Hfull & Hl & HA)]];
      rewrite HA; cbn [fst snd localDumps simplelru.evictList].
    + congruence.
    + eexists _, _. split; [reflexivity|]. by apply Hderef.
    + destruct l as [|e l].
      * exfalso. simpl in Hl. injection Hl as _ _ Hnil.
        unfold simplelru.Len in *. rewrite Hnil in Hfull. simpl in Hfull. lia.
      * simpl in Hl. injection Hl as <- _.
        eexists _, _. split; [reflexivity|]. apply Hderef, onEvict_heap.
Qed.

(** X11: in a state the storage can reach, after a successful [Persist] the
    dump is the most recently used entry of the index, and the last file of
    its list is the output path of the call. *)
Theorem X11_persisted_dump_is_registered X cfg m st w request ad raw io ad' st' w' :
  reachable X cfg m st w ->
  Persist X m st request ad raw io w = (None, ad', st', w') ->
  exists p rest,
    simplelru.evictList (localDumps st') = (MetadataName ad, p) :: rest /\
    last (deref w' p) = Some (GetOutputPath X request (MetadataName ad)).
Proof. apply Persist_registers. Qed.

Lemma X11_persisted_dump_is_registered_witness :
  let r := Persist sampleX sample_mgr sample_st sample_request (mkDump "d2" 0)
             (list_ascii_of_string "hello") None sample_w in
  exists p rest,
    simplelru.evictList (localDumps r.1.2) = ("d2", p) :: rest /\
    last (deref r.2 p) = Some "/d/d2.json".
Proof.
  apply (X11_persisted_dump_is_registered sampleX sample_cfg sample_mgr
           sample_st sample_w sample_request (mkDump "d2" 0)
           (list_ascii_of_string "hello") None
           (Persist sampleX sample_mgr sample_st sample_request (mkDump "d2" 0)
              (list_ascii_of_string "hello") None sample_w).1.1.2).
  - exact sample_reachable.
  - reflexivity.
Defined.

(** X12: the books of a successful [Persist], in a state the storage can
    reach.  For a name already in the index, the size and the eviction
    counter do not change.  For a new name with room left, the size grows by
    one and nothing is evicted.  For a new name on a full index, the size
    stays at the capacity and the counter goes up by exactly one. *)
Theorem X12_persist_accounting X cfg m st w request ad raw io ad' st' w' :
  reachable X cfg m st w ->
  Persist X m st request ad raw io w = (None, ad', st', w') ->
  let cap := ActivityDumpLocalStorageMaxDumpsCount cfg in
  let c := localDumps st in
  match simplelru.lookup_key (MetadataName ad) (simplelru.evictList c) with
  | Some _ =>
      simplelru.Len (localDumps st') = simplelru.Len c /\
      deletedCount w' = deletedCount w
  | None =>
      if simplelru.Len c <? cap
      then simplelru.Len (localDumps st') = simplelru.Len c + 1 /\
           deletedCount w' = deletedCount w /\ trace w' = trace w
      else simplelru.Len (localDumps st') = cap /\
           deletedCount w' = Uint64.add (deletedCount w) 1
  end.
Proof.
  intros Hr HP. cbv zeta.
  destruct (reachable_invariants X cfg m st w Hr) as ((Hsz & Hpos & Hlen) & Hb & _).
  destruct (simplelru.lookup_key (MetadataName ad)
              (simplelru.evictList (localDumps st))) as [p|] eqn:Hk.
  - apply Persist_ok in HP as (raw' & w1 & Hw & HP).
    pose proof (write_file_fields io
      (GetOutputPath X request (MetadataName ad)) raw' w) as (_ & _ & Hd & _).
    rewrite Hw in Hd. simpl in Hd.
    destruct HP as [(p' & Hk' & -> & ->)|(Hk' & _)]; [|congruence].
    split; [|done]. unfold simplelru.Len. simpl.
    apply LRUFacts.length_remove_key in Hk. lia.
  - destruct (Z.ltb_spec (simplelru.Len (localDumps st))
                (ActivityDumpLocalStorageMaxDumpsCount cfg)) as [Hroom|Hfull].
    + destruct (Persist_new_room X m _ _ _ _ _ _ _ _ _ HP Hk)
        as (-> & _ & Ht & Hd & _); [lia|].
      split; [|done]. unfold simplelru.Len. simpl. lia.
    + destruct (exists_last (l := simplelru.evictList (localDumps st)))
        as (l & [k0 p0] & Hl).
      { intros Hnil. unfold simplelru.Len in *. rewrite Hnil in Hfull.
        simpl in Hfull. lia. }
      destruct (Persist_new_full X m _ _ _ _ _ _ _ _ _ l k0 p0 HP Hk)
        as (w2 & Hh2 & _ & Hd2 & _ & -> & ->); [lia|done|].
      split.
      * unfold simplelru.Len in *. simpl. rewrite Hl, length_app in Hlen, Hfull.
        simpl in *. lia.
      * destruct (Hb k0 p0) as (files & Hf & Hne).
        { rewrite Hl. apply elem_of_app. right. apply list_elem_of_here. }
        destruct (onEvict_nonempty m k0 p0 w2) as (_ & _ & -> & _).
        { unfold deref. rewrite Hh2, (lookup_app_l_Some _ _ _ _ Hf). done. }
        by rewrite Hd2.
Qed.

Lemma X12_persist_accounting_witness :
  let r := Persist sampleX sample_mgr sample_st sample_request (mkDump "d4" 0)
             (list_ascii_of_string "hello") None sample_w in
  simplelru.Len (localDumps r.1.2) = 2 /\ deletedCount r.2 = 2.
Proof.
  exact (X12_persist_accounting sampleX sample_cfg sample_mgr sample_st sample_w
           sample_request (mkDump "d4" 0) (list_ascii_of_string "hello") None
           (Persist sampleX sample_mgr sample_st sample_request (mkDump "d4" 0)
              (list_ascii_of_string "hello") None sample_w).1.1.2 _ _
           sample_reachable eq_refl).
Defined.

Lemma NoDup_snd_key (l : list (string * loc)) k1 k2 p :
  NoDup l.*2 -> (k1, p) ∈ l -> (k2, p) ∈ l -> k1 = k2.
Proof.
  induction l as [|[k v] l IH]; intros Hnd H1 H2.
  - by apply elem_of_nil in H1.
  - rewrite fmap_cons in Hnd. apply NoDup_cons in Hnd as [Hv Hnd].
    apply elem_of_cons in H1 as [E1|H1];
      apply elem_of_cons in H2 as [E2|H2]; simplify_eq; try done.
    + exfalso. apply Hv. apply list_elem_of_fmap. by exists (k2, v).
    + exfalso. apply Hv. apply list_elem_of_fmap. by exists (k1, v).
    + by apply IH.
Qed.

(** X13: in a state the storage can reach, a successful [Persist] for one
    dump changes the file list of no other dump: every other entry left in
    the index was there before, with the same pointer and the same files. *)
Theorem X13_other_dumps_untouched X cfg m st w request ad raw io ad' st' w' k p :
  reachable X cfg m st w ->
  Persist X m st request ad raw io w = (None, ad', st', w') ->
  (k, p) ∈ simplelru.evictList (localDumps st') ->
  k <> MetadataName ad ->
  (k, p) ∈ simplelru.evictList (localDumps st) /\ deref w' p = deref w p.
Proof.
  intros Hr HP Hin Hne.
  destruct (reachable_invariants X cfg m st w Hr) as (_ & Hb & _).
  destruct (reachable_distinct X cfg m st w Hr) as (_ & Hnd & _).
  apply Persist_ok in HP as (raw' & w1 & Hw & HP).
  pose proof (write_file_fields io
    (GetOutputPath X request (MetadataName ad)) raw' w) as (Hh & _).
  rewrite Hw in Hh. simpl in Hh.
  destruct HP as [(p0 & Hk & -> & ->)|(Hk & HA)].
  - simpl in Hin. apply elem_of_cons in Hin as [[= -> ->]|Hin]; [done|].
    apply LRUFacts.remove_key_subseteq in Hin. split; [done|].
    assert (p0 <> p) as Hp.
    { intros ->. apply Hne.
      apply (NoDup_snd_key _ _ _ p Hnd Hin).
      by apply LRUFacts.lookup_key_Some. }
    unfold deref, store. cbn [set_heap heap].
    by rewrite list_lookup_insert_ne, Hh.
  - unfold alloc in HA. set (w2 := set_heap _ w1) in HA.
    destruct HA as [-> ->]. cbn [localDumps] in Hin.
    apply Add_entries, elem_of_cons in Hin as [[= -> ->]|Hin]; [done|].
    split; [done|].
    destruct (Hb k p Hin) as (files & Hf & _).
    unfold deref. rewrite Add_heap. unfold w2. cbn [set_heap heap].
    rewrite Hh, (lookup_app_l_Some _ _ _ _ Hf). by rewrite Hf.
Qed.

Lemma X13_other_dumps_untouched_witness :
  let r := Persist sampleX sample_mgr sample_st sample_request (mkDump "d2" 0)
             (list_ascii_of_string "hello") None sample_w in
  ("d3", 2%nat) ∈ simplelru.evictList (localDumps sample_st) /\
  deref r.2 2%nat = deref sample_w 2%nat.
Proof.
  pose (r := Persist sampleX sample_mgr sample_st sample_request (mkDump "d2" 0)
               (list_ascii_of_string "hello") None sample_w).
  apply (X13_other_dumps_untouched sampleX sample_cfg sample_mgr sample_st
           sample_w sample_request (mkDump "d2" 0)
           (list_ascii_of_string "hello") None r.1.1.2 r.1.2 r.2 "d3").
  - exact sample_reachable.
  - reflexivity.
  - apply list_elem_of_further, list_elem_of_here.
  - discriminate.
Defined.

(** X14: with a capacity of at least two, the dump of a successful [Persist]
    is never the one that the next successful [Persist] evicts: it is still
    in the index afterwards, whatever that next call is for. *)
Theorem X14_last_persisted_dump_survives X cfg m st w
    rq1 ad1 raw1 io1 ad1' st1 w1 rq2 ad2 raw2 io2 ad2' st2 w2 :
  reachable X cfg m st w ->
  2 <= ActivityDumpLocalStorageMaxDumpsCount cfg ->
  Persist X m st rq1 ad1 raw1 io1 w = (None, ad1', st1, w1) ->
  Persist X m st1 rq2 ad2 raw2 io2 w1 = (None, ad2', st2, w2) ->
  is_Some (simplelru.lookup_key (MetadataName ad1)
             (simplelru.evictList (localDumps st2))).
Proof.
  intros Hr Hcap HP1 HP2.
  destruct (Persist_registers X cfg m _ _ _ _ _ _ _ _ _ Hr HP1)
    as (p & rest & Hl1 & _).
  assert (reachable X cfg m st1 w1) as Hr1 by (by eapply reach_persist).
  destruct (reachable_invariants X cfg m st1 w1 Hr1) as ((Hsz & _ & _) & _ & _).
  set (n1 := MetadataName ad1) in *. set (n2 := MetadataName ad2) in *.
  apply Persist_ok in HP2 as (raw' & w1' & _ & HP2). fold n2 in HP2.
  destruct HP2 as [(p2 & Hk & -> & _)|(Hk & HA)].
  - cbn [localDumps simplelru.evictList]. rewrite Hl1.
    destruct (String.eqb_spec n1 n2) as [Heq|Hne].
    + simpl. rewrite <- Heq, String.eqb_refl. eauto.
    + simpl. rewrite (proj2 (String.eqb_neq n1 n2)) by done.
      rewrite (proj2 (String.eqb_neq n2 n1)) by done.
      simpl. rewrite String.eqb_refl. eauto.
  - assert (n1 <> n2) as Hne.
    { intros Heq. rewrite Hl1, <- Heq in Hk. simpl in Hk.
      by rewrite String.eqb_refl in Hk. }
    unfold alloc in HA. set (w2' := set_heap _ w1') in HA.
    destruct HA as [-> _]. cbn [localDumps].
    destruct (LRUFacts.Add_cases (onEvict m) (localDumps st1) n2
                (length (heap w1')) w2')
      as [(v0 & Hk' & HA)|[(_ & _ & HA)|(l & k0 & p0 & _ & Hfull & Hl & HA)]];
      rewrite HA; cbn [fst simplelru.evictList].
    + congruence.
    + rewrite Hl1. simpl. rewrite (proj2 (String.eqb_neq n1 n2)) by done.
      rewrite String.eqb_refl. eauto.
    + rewrite Hl1 in Hl.
      unfold simplelru.Len in Hfull. rewrite Hl1 in Hfull. simpl in Hfull.
      destruct l as [|e1 [|e2 l]]; simpl in Hl.
      * discriminate.
      * injection Hl as _ _ Hrest. subst rest. simpl in Hfull. lia.
      * injection Hl as <- <- _. simpl.
        rewrite (proj2 (String.eqb_neq n1 n2)) by done.
        rewrite String.eqb_refl. eauto.
Qed.

Lemma X14_last_persisted_dump_survives_witness :
  let r1 := Persist sampleX sample_mgr sample_st sample_request (mkDump "d2" 0)
              (list_ascii_of_string "hello") None sample_w in
  let r2 := Persist sampleX sample_mgr r1.1.2 sample_request (mkDump "d4" 0)
              (list_ascii_of_string "hello") None r1.2 in
  is_Some (simplelru.lookup_key "d2" (simplelru.evictList (localDumps r2.1.2))) /\
  simplelru.lookup_key "d3" (simplelru.evictList (localDumps r2.1.2)) = None.
Proof.
  pose (r1 := Persist sampleX sample_mgr sample_st sample_request (mkDump "d2" 0)
              (list_ascii_of_string "hello") None sample_w).
  pose (r2 := Persist sampleX sample_mgr r1.1.2 sample_request (mkDump "d4" 0)
              (list_ascii_of_string "hello") None r1.2).
  split; [|reflexivity].
  apply (X14_last_persisted_dump_survives sampleX sample_cfg sample_mgr
           sample_st sample_w
           sample_request (mkDump "d2" 0) (list_ascii_of_string "hello") None
           r1.1.1.2 r1.1.2 r1.2
           sample_request (mkDump "d4" 0) (list_ascii_of_string "hello") None
           r2.1.1.2 r2.1.2 r2.2).
  - exact sample_reachable.
  - simpl. lia.
  - reflexivity.
  - reflexivity.
Defined.

Lemma Sorted_weaken {A} (R R' : A -> A -> Prop) l :
  (forall a b, R a b -> R' a b) -> Sorted R l -> Sorted R' l.
Proof.
  intros HR. induction 1 as [|a l Hs IH Hhd]; constructor; [done|].
  destruct Hhd; constructor. by apply HR.
Qed.

(** X15: the slice of dumps handed to the seeding loop is a rearrangement
    of the dumps of the map, in non-decreasing order of [MTime]. *)
Theorem X15_dumps_sorted_by_mtime rangeOrder dumps :
  (forall l, rangeOrder l ≡ₚ l) ->
  let s := sort_Sort (newDumpFilesSlice rangeOrder dumps) in
  s ≡ₚ (map_to_list dumps).*2 /\
  Sorted (fun a b => MTime a <= MTime b) s.
Proof.
  intros Hperm. cbv zeta. split.
  - rewrite sort_Sort_perm. unfold newDumpFilesSlice. by rewrite Hperm.
  - eapply Sorted_weaken; [|apply sort_Sort_sorted].
    intros a b. unfold Less, Time.Before. simpl. lia.
Qed.

Lemma X15_dumps_sorted_by_mtime_witness :
  let dumps : gmap string dumpFiles :=
    <["a" := mkDumpFiles "a" ["/d/a.json"] 30]>
      (<["b" := mkDumpFiles "b" ["/d/b.json"] 10]>
         (<["c" := mkDumpFiles "c" ["/d/c.json"] 20]> ∅)) in
  let s := sort_Sort (newDumpFilesSlice id dumps) in
  Name <$> s = ["b"; "c"; "a"] /\
  s ≡ₚ (map_to_list dumps).*2 /\
  Sorted (fun a b => MTime a <= MTime b) s.
Proof.
  cbv zeta. split; [vm_compute; reflexivity|].
  apply (X15_dumps_sorted_by_mtime id). intros l. reflexivity.
Defined.

(** ** First in, first out *)

Lemma take_app_take {A} (a b : list A) : forall n m,
  (n <= m)%nat -> take n (a ++ take m b) = take n (a ++ b).
Proof.
  induction a as [|x a IH]; intros n m Hnm; simpl.
  - rewrite take_take. by rewrite Nat.min_l.
  - destruct n as [|n]; [done|]. simpl. f_equal. apply IH. lia.
Qed.

(** Inserting a fresh, non-empty file list under a new name: the names in
    the index are the [N] first of the new name followed by the former
    names, and the counter goes up by one exactly when the index was full. *)
Lemma push_step m c w k files N :
  bounded N c -> backed c w -> k ∉ (simplelru.evictList c).*1 ->
  let r := simplelru.Add (onEvict m) c k (length (heap w))
             (set_heap (heap w ++ [files]) w) in
  (simplelru.evictList r.1.1).*1
    = take (Z.to_nat N) (k :: (simplelru.evictList c).*1) /\
  deletedCount r.1.2
    = (if simplelru.Len c =? N then Uint64.add (deletedCount w) 1
       else deletedCount w).
Proof.
  intros (Hsz & Hpos & Hlen) Hb Hk. cbv zeta.
  set (w1 := set_heap (heap w ++ [files]) w).
  unfold simplelru.Len in *.
  destruct (LRUFacts.Add_cases (onEvict m) c k (length (heap w)) w1)
    as [(v0 & Hk' & _)|[(_ & Hroom & ->)|(l & k0 & p0 & _ & Hfull & Hl & ->)]];
    cbn [fst snd simplelru.evictList].
  - exfalso. apply Hk. apply list_elem_of_fmap. exists (k, v0).
    split; [done|]. by apply LRUFacts.lookup_key_Some.
  - unfold simplelru.Len in Hroom. split.
    + rewrite take_ge; [done|]. simpl. rewrite length_fmap. lia.
    + destruct (Z.eqb_spec (Z.of_nat (length (simplelru.evictList c))) N);
        [lia|done].
  - unfold simplelru.Len in Hfull.
    assert (length l = length (simplelru.evictList c)) as Hll.
    { apply (f_equal (@length _)) in Hl. rewrite length_app in Hl.
      simpl in Hl. lia. }
    split.
    + change (k :: (simplelru.evictList c).*1)
        with ((@pair string loc k (length (heap w))
                :: simplelru.evictList c).*1).
      rewrite Hl, fmap_app. apply eq_sym, take_app_length'.
      rewrite length_fmap. lia.
    + destruct (Z.eqb_spec (Z.of_nat (length (simplelru.evictList c))) N);
        [|lia].
      assert ((k0, p0) ∈ simplelru.evictList c) as Hin.
      { destruct l as [|x l]; simpl in Hl.
        - injection Hl as _ _ Hnil. rewrite Hnil in Hfull. simpl in *. lia.
        - injection Hl as _ ->. apply elem_of_app. right. apply list_elem_of_here. }
      destruct (Hb k0 p0 Hin) as (fl & Hf & Hne).
      destruct (onEvict_nonempty m k0 p0 w1) as (_ & _ & -> & _); [|done].
      unfold deref, w1. cbn [set_heap heap].
      by rewrite (lookup_app_l_Some _ _ _ _ Hf).
Qed.

Lemma Uint64_add_wrap d x :
  Uint64.add (Uint64.wrap (d + x)) 1 = Uint64.wrap (d + (x + 1)).
Proof.
  unfold Uint64.add, Uint64.wrap. rewrite Zplus_mod_idemp_l. f_equal. lia.
Qed.

Lemma fifo_count d L k N :
  0 < N -> 0 <= L <= N -> 0 <= k ->
  Uint64.wrap ((if L =? N then Uint64.add d 1 else d)
               + Z.max 0 (Z.min N (L + 1) + k - N))
  = Uint64.wrap (d + Z.max 0 (L + (k + 1) - N)).
Proof.
  intros HN HL Hk. destruct (Z.eqb_spec L N) as [->|Hne].
  - unfold Uint64.add, Uint64.wrap. rewrite Zplus_mod_idemp_l. f_equal. lia.
  - f_equal. lia.
Qed.

Lemma Len_keys c :
  simplelru.Len c = Z.of_nat (length (simplelru.evictList c).*1).
Proof. unfold simplelru.Len. by rewrite length_fmap. Qed.

Lemma fifo_keys {A} (N : nat) (n : A) (ns keys : list A) :
  take N (rev ns ++ take N (n :: keys)) = take N (rev (n :: ns) ++ keys).
Proof.
  rewrite take_app_take by done. simpl. by rewrite <- app_assoc.
Qed.

(** Dumps seeded under distinct new names leave the index first in, first
    out. *)
Lemma seed_fifo m N dumps : forall c w,
  bounded N c -> backed c w ->
  Forall (fun ad => Files ad <> []) dumps ->
  NoDup (Name <$> dumps) ->
  (forall ad, ad ∈ dumps -> Name ad ∉ (simplelru.evictList c).*1) ->
  let r := fold_left (seed m) dumps (c, w) in
  (simplelru.evictList r.1).*1
    = take (Z.to_nat N) (rev (Name <$> dumps) ++ (simplelru.evictList c).*1) /\
  Uint64.wrap (deletedCount r.2)
    = Uint64.wrap (deletedCount w
                   + Z.max 0 (simplelru.Len c + Z.of_nat (length dumps) - N)).
Proof.
  induction dumps as [|ad dumps IH]; intros c w Hbd Hbk Hall Hnd Hnew;
    cbn [fold_left].
  - cbv zeta. simpl. destruct Hbd as (_ & _ & Hlen). split.
    + rewrite take_ge; [done|]. rewrite length_fmap.
      unfold simplelru.Len in Hlen. lia.
    + f_equal. lia.
  - inversion Hall as [|? ? Hne Hall']; subst.
    rewrite fmap_cons in Hnd. apply NoDup_cons in Hnd as [Hfresh Hnd].
    assert (Name ad ∉ (simplelru.evictList c).*1) as Hk
      by apply Hnew, list_elem_of_here.
    pose proof (push_step m c w (Name ad) (Files ad) N Hbd Hbk Hk) as (Hkeys & Hcnt).
    pose proof (Add_bounded m N c (Name ad) (length (heap w))
                  (set_heap (heap w ++ [Files ad]) w) Hbd) as Hbd1.
    pose proof (alloc_Add_backed m c (Name ad) (Files ad) w Hne Hbk) as Hbk1.
    unfold seed, alloc in *.
    destruct (simplelru.Add (onEvict m) c (Name ad) (length (heap w))
                (set_heap (heap w ++ [Files ad]) w)) as [[c1 w1] b].
    cbn [fst snd] in *.
    destruct (IH c1 w1 Hbd1 Hbk1 Hall' Hnd) as (Hk1 & Hc1).
    { intros ad' Hin Hin'. rewrite Hkeys in Hin'.
      apply subseteq_take in Hin'. rename Hin' into Hi.
      apply elem_of_cons in Hi as [Heq|Hi].
      - apply Hfresh. apply list_elem_of_fmap. exists ad'. by split.
      - by apply (Hnew ad'); [apply list_elem_of_further|]. }
    cbv zeta. split.
    + rewrite Hk1, Hkeys. apply fifo_keys.
    + rewrite Hc1, Hcnt. rewrite (Len_keys c1), Hkeys.
      rewrite length_take. simpl length. rewrite length_fmap.
      destruct Hbd as (_ & Hpos & Hlen). unfold simplelru.Len in *.
      replace (Z.of_nat (Z.to_nat N `min` S (length (simplelru.evictList c))))
        with (Z.min N (Z.of_nat (length (simplelru.evictList c)) + 1)) by lia.
      replace (Z.of_nat (S (length dumps)))
        with (Z.of_nat (length dumps) + 1) by lia.
      apply fifo_count; lia.
Qed.

Lemma counter_ok_wrap w : counter_ok w -> Uint64.wrap (deletedCount w) = deletedCount w.
Proof. intros H. unfold Uint64.wrap. by apply Z.mod_small. Qed.

(** X16: reconciliation is first in, first out.  Whatever the number of
    dumps found, the index ends with the names of the last dumps seeded, as
    many as the capacity allows, most recent first, and the counter holds
    one eviction for each dump in excess of the capacity. *)
Theorem X16_reconciliation_is_fifo X cfg m files mkdirAll rangeOrder w st w' :
  (forall l, rangeOrder l ≡ₚ l) ->
  ActivityDumpLocalStorageDirectory cfg <> "" ->
  NewActivityDumpLocalStorage X cfg m (ReadDirOk files) mkdirAll rangeOrder w
    = inr (st, w') ->
  let cap := ActivityDumpLocalStorageMaxDumpsCount cfg in
  let dumps0 := (fold_left (merge_file X cfg) files (∅, w)).1 in
  let seeded := sort_Sort (newDumpFilesSlice rangeOrder dumps0) in
  (simplelru.evictList (localDumps st)).*1
    = take (Z.to_nat cap) (rev (Name <$> seeded)) /\
  deletedCount w'
    = Uint64.wrap (Z.max 0 (Z.of_nat (size dumps0) - cap)).
Proof.
  intros Hperm Hdir Hnew. cbv zeta.
  pose proof (New_invariants X cfg m _ _ _ _ _ _ Hperm Hnew) as (_ & _ & Hcok).
  rewrite <- (counter_ok_wrap w' Hcok). clear Hcok.
  revert Hnew. unfold NewActivityDumpLocalStorage, simplelru.NewLRU.
  set (cap := ActivityDumpLocalStorageMaxDumpsCount cfg) in *.
  destruct (Z.leb_spec cap 0) as [|Hpos]; [done|].
  destruct (ActivityDumpLocalStorageDirectory cfg) as [|a dir] eqn:Hd; [done|].
  simpl String.length. cbn [Nat.ltb Nat.leb].
  pose proof (fold_merge_file X cfg files ∅ (set_deleted 0 w) merged_empty)
    as (Hm & _ & Hdc1 & _).
  assert ((fold_left (merge_file X cfg) files (∅, set_deleted 0 w)).1
          = (fold_left (merge_file X cfg) files (∅, w)).1)
    as Hmap by apply fold_merge_map_indep.
  destruct (fold_left (merge_file X cfg) files (∅, set_deleted 0 w))
    as [dumps1 w1].
  cbn [fst snd] in *. rewrite <- Hmap. clear Hmap.
  set (dumps := sort_Sort (newDumpFilesSlice rangeOrder dumps1)).
  pose proof (merged_slice_names rangeOrder dumps1 Hperm Hm) as Hnames.
  fold dumps in Hnames.
  assert (length dumps = size dumps1) as Hlen.
  { rewrite <- (length_fmap Name), Hnames, length_fmap.
    apply length_map_to_list. }
  destruct (seed_fifo m cap dumps (simplelru.mkLRU cap []) w1)
    as (Hkeys & Hcnt).
  { unfold bounded, simplelru.Len. simpl. lia. }
  { intros k p Hin. by apply elem_of_nil in Hin. }
  { eapply Forall_impl; [apply (sorted_dumps_merged rangeOrder dumps1 Hperm Hm)|].
    by intros ad [? _]. }
  { rewrite Hnames. apply NoDup_fst_map_to_list. }
  { intros ad _. simpl. apply not_elem_of_nil. }
  destruct (fold_left (seed m) dumps _) as [c w2].
  cbn [fst snd] in *. intros [= <- <-]. cbn [localDumps].
  split.
  - rewrite Hkeys. simpl. by rewrite app_nil_r.
  - rewrite Hcnt, Hdc1. unfold simplelru.Len. simpl. rewrite Hlen.
    f_equal.
Qed.

Lemma X16_reconciliation_is_fifo_witness :
  exists st w',
    NewActivityDumpLocalStorage sampleX (mkConfig 1 "/d") sample_mgr
      (ReadDirOk sample_listing) true id world0 = inr (st, w') /\
    length (simplelru.evictList (localDumps st)).*1 = 1%nat /\
    deletedCount w' = 1.
Proof.
  eexists _, _. split; [vm_compute; reflexivity|].
  edestruct (X16_reconciliation_is_fifo sampleX (mkConfig 1 "/d") sample_mgr
               sample_listing true id world0) as (Hk & Hd).
  - intros l. reflexivity.
  - discriminate.
  - vm_compute. reflexivity.
  - split; [rewrite Hk; vm_compute; reflexivity|].
    rewrite Hd. vm_compute. reflexivity.
Defined.

(** Successful calls for distinct new names leave the index first in, first
    out. *)
Lemma run_fifo X cfg m calls : forall st w errs st' w',
  reachable X cfg m st w ->
  run X m calls st w = (errs, st', w') ->
  Forall (fun e => e = None) errs ->
  NoDup (callName <$> calls) ->
  (forall c, c ∈ calls ->
     callName c ∉ (simplelru.evictList (localDumps st)).*1) ->
  let N := ActivityDumpLocalStorageMaxDumpsCount cfg in
  (simplelru.evictList (localDumps st')).*1
    = take (Z.to_nat N) (rev (callName <$> calls)
                         ++ (simplelru.evictList (localDumps st)).*1) /\
  Uint64.wrap (deletedCount w')
    = Uint64.wrap (deletedCount w
                   + Z.max 0 (simplelru.Len (localDumps st)
                              + Z.of_nat (length calls) - N)).
Proof.
  induction calls as [|c calls IH]; intros st w errs st' w' Hr Hrun Hok Hnd Hnew;
    destruct (reachable_invariants X cfg m st w Hr) as (Hbd & Hbk & _);
    simpl in Hrun.
  - injection Hrun as <- <- <-. cbv zeta. simpl.
    destruct Hbd as (_ & _ & Hlen). split.
    + rewrite take_ge; [done|]. rewrite length_fmap.
      unfold simplelru.Len in Hlen. lia.
    + f_equal. lia.
  - destruct (Persist X m st _ _ _ _ w) as [[[e ad'] st1] w1] eqn:HP.
    destruct (run X m calls st1 w1) as [[errs1 st1'] w1'] eqn:Hrun1.
    injection Hrun as <- <- <-.
    inversion Hok as [|? ? He Hok1]; subst.
    rewrite fmap_cons in Hnd. apply NoDup_cons in Hnd as [Hfresh Hnd].
    assert (callName c ∉ (simplelru.evictList (localDumps st)).*1) as Hk
      by apply Hnew, list_elem_of_here.
    assert (reachable X cfg m st1 w1) as Hr1 by (by eapply reach_persist).
    assert ((simplelru.evictList (localDumps st1)).*1
              = take (Z.to_nat (ActivityDumpLocalStorageMaxDumpsCount cfg))
                     (callName c :: (simplelru.evictList (localDumps st)).*1) /\
            deletedCount w1
              = (if simplelru.Len (localDumps st)
                      =? ActivityDumpLocalStorageMaxDumpsCount cfg
                 then Uint64.add (deletedCount w) 1 else deletedCount w))
      as (Hkeys & Hcnt).
    { apply Persist_ok in HP as (raw' & w0 & Hw & HP).
      pose proof (write_file_fields (callFault c)
        (GetOutputPath X (callRequest c) (MetadataName (callDump c))) raw' w)
        as (Hh & _ & Hd & _).
      rewrite Hw in Hh, Hd. simpl in Hh, Hd.
      destruct HP as [(p' & Hk' & _)|(_ & HA)].
      { exfalso. apply Hk. apply list_elem_of_fmap. exists (callName c, p').
        split; [done|]. by apply LRUFacts.lookup_key_Some. }
      unfold alloc in HA. destruct HA as [-> ->]. cbn [localDumps].
      rewrite <- Hd.
      apply (push_step m (localDumps st) w0); [done| |done].
      by apply (backed_same_heap _ w). }
    destruct (IH st1 w1 errs1 st1' w1' Hr1 Hrun1 Hok1 Hnd) as (Hk1 & Hc1).
    { intros c' Hin Hin'. rewrite Hkeys in Hin'.
      apply subseteq_take in Hin'.
      apply elem_of_cons in Hin' as [Heq|Hi].
      - apply Hfresh. apply list_elem_of_fmap. exists c'. by split.
      - by apply (Hnew c'); [apply list_elem_of_further|]. }
    cbv zeta. split.
    + rewrite Hk1, Hkeys. apply fifo_keys.
    + rewrite Hc1, Hcnt. rewrite (Len_keys (localDumps st1)), Hkeys.
      rewrite length_take. simpl length. rewrite length_fmap.
      destruct Hbd as (_ & Hpos & Hlen). unfold simplelru.Len in *.
      replace (Z.of_nat (Z.to_nat (ActivityDumpLocalStorageMaxDumpsCount cfg)
                         `min` S (length (simplelru.evictList (localDumps st)))))
        with (Z.min (ActivityDumpLocalStorageMaxDumpsCount cfg)
                    (Z.of_nat (length (simplelru.evictList (localDumps st))) + 1))
        by lia.
      replace (Z.of_nat (S (length calls)))
        with (Z.of_nat (length calls) + 1) by lia.
      apply fifo_count; lia.
Qed.

(** X17: after any number of successful [Persist] calls for distinct names
    that are new to the index, the index holds the most recent names, as
    many as the capacity allows, most recent first, and the eviction counter
    has gone up by one for each entry in excess of the capacity. *)
Theorem X17_distinct_persists_are_fifo X cfg m st w calls errs st' w' :
  reachable X cfg m st w ->
  run X m calls st w = (errs, st', w') ->
  Forall (fun e => e = None) errs ->
  NoDup (callName <$> calls) ->
  (forall c, c ∈ calls ->
     callName c ∉ (simplelru.evictList (localDumps st)).*1) ->
  let N := ActivityDumpLocalStorageMaxDumpsCount cfg in
  (simplelru.evictList (localDumps st')).*1
    = take (Z.to_nat N) (rev (callName <$> calls)
                         ++ (simplelru.evictList (localDumps st)).*1) /\
  deletedCount w'
    = Uint64.wrap (deletedCount w
                   + Z.max 0 (simplelru.Len (localDumps st)
                              + Z.of_nat (length calls) - N)).
Proof.
  intros Hr Hrun Hok Hnd Hnew. cbv zeta.
  destruct (run_fifo X cfg m calls st w errs st' w' Hr Hrun Hok Hnd Hnew)
    as (Hk & Hc).
  split; [exact Hk|]. rewrite <- Hc. symmetry. apply counter_ok_wrap.
  assert (forall cs s0 v0 es s1 v1,
            reachable X cfg m s0 v0 -> run X m cs s0 v0 = (es, s1, v1) ->
            reachable X cfg m s1 v1) as Hreach.
  { induction cs as [|c cs IHc]; intros s0 v0 es s1 v1 H0 Hrn; simpl in Hrn.
    - by injection Hrn as <- <- <-.
    - destruct (Persist X m s0 _ _ _ _ v0) as [[[e ad'] s2] v2] eqn:HP.
      destruct (run X m cs s2 v2) as [[es2 s3] v3] eqn:Hrn2.
      injection Hrn as <- <- <-.
      eapply IHc; [|exact Hrn2]. by eapply reach_persist. }
  by destruct (reachable_invariants X cfg m st' w'
                 (Hreach _ _ _ _ _ _ Hr Hrun)) as (_ & _ & ?).
Qed.

Lemma sample_names_distinct :
  NoDup (callName <$> [sample_call "d1"; sample_call "d2"; sample_call "d3";
                       sample_call "d4"]).
Proof.
  change (NoDup ["d1"; "d2"; "d3"; "d4"]).
  repeat (apply NoDup_cons; split;
          [intros H; repeat (apply elem_of_cons in H as [H|H];
                             [discriminate|]); by apply elem_of_nil in H|]).
  apply NoDup_nil_2.
Qed.

Lemma X17_distinct_persists_are_fifo_witness :
  exists st w,
    run sampleX sample_mgr
        [sample_call "d1"; sample_call "d2"; sample_call "d3"; sample_call "d4"]
        (sample_store 2) world0 = ([None; None; None; None], st, w) /\
    (simplelru.evictList (localDumps st)).*1 = ["d4"; "d3"] /\
    deletedCount w = 2.
Proof.
  eexists _, _. split; [vm_compute; reflexivity|].
  edestruct (X17_distinct_persists_are_fifo sampleX sample_cfg sample_mgr
               (sample_store 2) world0
               [sample_call "d1"; sample_call "d2"; sample_call "d3";
                sample_call "d4"]) as (Hk & Hd).
  - eapply (reach_new _ _ _ (ReadDirOk []) true id world0);
      [intros l; reflexivity|vm_compute; reflexivity].
  - vm_compute. reflexivity.
  - repeat constructor.
  - exact sample_names_distinct.
  - intros c _. apply not_elem_of_nil.
  - split; [rewrite Hk; reflexivity|rewrite Hd; reflexivity].
Defined.

(** X18: in a state the storage can reach, a successful [Persist] of a new
    name on a full index evicts the least recently used dump, the last entry
    of the list: its name is no longer in the index, and every file of its
    list whose removal the file system does not refuse is gone from the disk
    when the call returns. *)
Theorem X18_eviction_removes_the_oldest_dump
    X cfg m st w request ad raw io ad' st' w' l k0 p0 q :
  reachable X cfg m st w ->
  Persist X m st request ad raw io w = (None, ad', st', w') ->
  simplelru.lookup_key (MetadataName ad) (simplelru.evictList (localDumps st))
    = None ->
  simplelru.Len (localDumps st) = ActivityDumpLocalStorageMaxDumpsCount cfg ->
  simplelru.evictList (localDumps st) = (l ++ [(k0, p0)])%list ->
  simplelru.lookup_key k0 (simplelru.evictList (localDumps st')) = None /\
  (simplelru.evictList (localDumps st')).*1 = MetadataName ad :: l.*1 /\
  (q ∈ deref w p0 -> q ∉ pinned w -> disk w' !! q = None).
Proof.
  intros Hr HP Hk Hfull Hl.
  destruct (reachable_invariants X cfg m st w Hr) as ((Hsz & _ & _) & Hb & _).
  destruct (reachable_distinct X cfg m st w Hr) as (Hnd & _ & _).
  destruct (Persist_new_full X m _ _ _ _ _ _ _ _ _ l k0 p0 HP Hk)
    as (w2 & Hh2 & _ & _ & Hp2 & -> & ->); [lia|done|].
  cbn [simplelru.evictList].
  rewrite Hl, fmap_app in Hnd. apply NoDup_app in Hnd as (_ & Hdisj & _).
  assert (k0 ∉ l.*1) as Hk0.
  { intros Hin. apply (Hdisj k0 Hin). simpl. apply list_elem_of_here. }
  assert (k0 <> MetadataName ad) as Hne.
  { intros ->. apply lookup_key_elem in Hk. apply Hk.
    rewrite Hl, fmap_app. apply elem_of_app. right. simpl. apply list_elem_of_here. }
  split.
  { apply lookup_key_not_elem. simpl. apply not_elem_of_cons. by split. }
  split; [done|].
  intros Hq Hpin.
  destruct (Hb k0 p0) as (files & Hf & Hnef).
  { rewrite Hl. apply elem_of_app. right. apply list_elem_of_here. }
  assert (deref w2 p0 = deref w p0) as Hderef.
  { unfold deref. by rewrite Hh2, (lookup_app_l_Some _ _ _ _ Hf), Hf. }
  destruct (onEvict_nonempty m k0 p0 w2) as (_ & _ & _ & _ & Hrm & _).
  { rewrite Hderef. unfold deref. by rewrite Hf. }
  apply Hrm; [by rewrite Hderef|by rewrite Hp2].
Qed.

Lemma X18_eviction_removes_the_oldest_dump_witness :
  let r := Persist sampleX sample_mgr sample_st sample_request (mkDump "d4" 0)
             (list_ascii_of_string "hello") None sample_w in
  simplelru.lookup_key "d2" (simplelru.evictList (localDumps r.1.2)) = None /\
  (simplelru.evictList (localDumps r.1.2)).*1 = ["d4"; "d3"] /\
  disk r.2 !! "/d/d2.json" = None.
Proof.
  pose (r := Persist sampleX sample_mgr sample_st sample_request (mkDump "d4" 0)
             (list_ascii_of_string "hello") None sample_w).
  destruct (X18_eviction_removes_the_oldest_dump sampleX sample_cfg sample_mgr
              sample_st sample_w sample_request (mkDump "d4" 0)
              (list_ascii_of_string "hello") None r.1.1.2 r.1.2 r.2
              [("d3", 2%nat)] "d2" 1%nat "/d/d2.json"
              sample_reachable eq_refl eq_refl eq_refl eq_refl)
    as (Hgone & Hkeys & Hdisk).
  split; [exact Hgone|]. split; [exact Hkeys|].
  apply Hdisk.
  - apply list_elem_of_here.
  - apply not_elem_of_empty.
Defined.
